(** * Baseutil: print, compare, to-string and from-string utilities

    A shallow embedding of [utilities.c] and of the macros of [dbg.h] and
    [macros.h] it relies on.  The repository holds two revisions of
    [utilities.c]: the one under [src/utilities.c] (module [Utilities]) and a
    later revision of the same file (module [Utilities2]), in which the
    integer comparison, the integer buffer size and the [errno] handling of
    the parsers were rewritten.  The functions the properties below are
    about are embedded from both, one definition per C function.

    Conventions.
    - A handle [const void *] is an [option]: [None] is the NULL pointer,
      [Some v] a pointer to the value [v].  A generic handle, which is
      never dereferenced, is [Some a] for the address [a]; address 0 is the
      NULL pointer too (see [pointer]).
    - A C string is the [string] of the bytes that precede its terminating
      NUL; arguments documented as "must not be NULL" (checked by [assert])
      are taken as plain values.
    - [int] is 32 bits wide and [long] 64 bits wide (GNU/Linux LP64, the
      platform the library is written for); narrowing and signed overflow
      wrap around.
    - [errno] and the allocator are an explicit [world] threaded through the
      functions that touch them. *)

From Stdlib Require Import ZArith Lia Bool List Ascii String.
From Stdlib Require Import Floats.SpecFloat.

Local Open Scope string_scope.
Local Open Scope Z_scope.

(** ** The C platform *)

Module C.

Definition INT_MAX : Z := 2147483647.
Definition INT_MIN : Z := -2147483648.
Definition LONG_MAX : Z := 9223372036854775807.
Definition LONG_MIN : Z := -9223372036854775808.

Definition ERANGE : Z := 34.
Definition ENOMEM : Z := 12.

(** [DBL_DIG] of [float.h] for binary64. *)
Definition DBL_DIG : nat := 15.

(** Conversion of a mathematical integer to [int]: reduction modulo 2^32
    into the signed range. *)
Definition to_int (z : Z) : Z := (z + 2147483648) mod 4294967296 - 2147483648.

Definition in_int (z : Z) : Prop := INT_MIN <= z <= INT_MAX.

(** The [int] value of a C truth value. *)
Definition of_bool (b : bool) : Z := if b then 1 else 0.

(** [!p] for a pointer [p]. *)
Definition lnot {A : Type} (p : option A) : Z :=
  match p with None => 1 | Some _ => 0 end.

(** The value of a [char] once promoted to [int]; whether plain [char] is
    signed is left to the platform. *)
Definition char_val (char_signed : bool) (c : ascii) : Z :=
  let u := Z.of_N (N_of_ascii c) in
  if char_signed && (128 <=? u) then u - 256 else u.

Definition NUL : ascii := Ascii.zero.

(** *** errno and the allocator *)

Record world : Type := mkWorld {
  errno : Z;        (* the calling thread's errno *)
  heap : nat        (* how many more allocations will succeed *)
}.

Definition set_errno (e : Z) (w : world) : world :=
  {| errno := e; heap := heap w |}.

(** [malloc]: [true] when a block was obtained.  A failure sets ENOMEM. *)
Definition malloc (w : world) : bool * world :=
  match heap w with
  | O => (false, set_errno ENOMEM w)
  | S n => (true, {| errno := errno w; heap := n |})
  end.

(** [free(p)]; [free(NULL)] does nothing. *)
Definition free (p : bool) (w : world) : world :=
  if p then {| errno := errno w; heap := S (heap w) |} else w.

(** *** Streams *)

Record FILE : Type := mkFILE {
  f_out : string;   (* the bytes written so far *)
  f_err : bool      (* the stream is in a state where writing fails *)
}.

(** [fprintf] once the format has been expanded to [text]: the number of
    bytes written, or a negative value when the write fails. *)
Definition fprintf (f : FILE) (text : string) : Z * FILE :=
  if f_err f then (-1, f)
  else (Z.of_nat (String.length text),
        {| f_out := f_out f ++ text; f_err := false |}).

(** *** Decimal output: the [%d] conversion *)

Definition digit_char (d : Z) : ascii := ascii_of_N (48 + Z.to_N d).

(** Digits of a non-negative [n], most significant first, pushed in front
    of [acc]. *)
Fixpoint dec_digits (fuel : nat) (n : Z) (acc : string) : string :=
  match fuel with
  | O => acc
  | S f =>
      let acc' := String (digit_char (n mod 10)) acc in
      if n <? 10 then acc' else dec_digits f (n / 10) acc'
  end.

Definition fmt_u (n : Z) : string :=
  dec_digits (S (Z.to_nat (Z.log2 n))) n "".

Definition fmt_d (n : Z) : string :=
  if n <? 0 then String "-" (fmt_u (- n)) else fmt_u n.

(** The first [n] bytes of [s]. *)
Fixpoint take (n : nat) (s : string) : string :=
  match n, s with
  | S k, String c r => String c (take k r)
  | _, _ => ""
  end.

(** [snprintf(buf, size, ...)] once the format has been expanded to [text]:
    the string left in [buf], at most [size - 1] bytes and the NUL. *)
Definition snprintf (size : Z) (text : string) : string :=
  take (Z.to_nat (size - 1)) text.

(** *** Decimal input: [strtol] in base 10 *)

Definition isspace (c : ascii) : bool :=
  let n := N_of_ascii c in
  ((9 <=? n) && (n <=? 13) || (n =? 32))%N.

Definition isdigit (c : ascii) : bool :=
  let n := N_of_ascii c in ((48 <=? n) && (n <=? 57))%N.

Definition digit_val (c : ascii) : Z := Z.of_N (N_of_ascii c) - 48.

(** Leading white space: how many bytes, and what follows. *)
Fixpoint skip_space (s : string) : nat * string :=
  match s with
  | String c r =>
      if isspace c then let (k, t) := skip_space r in (S k, t) else (O, s)
  | EmptyString => (O, s)
  end.

(** The leading run of decimal digits of [s], continuing the value [acc]
    read from [cnt] digits so far: the value and the number of digits. *)
Fixpoint digits_run (s : string) (acc : Z) (cnt : nat) : Z * nat :=
  match s with
  | String c r =>
      if isdigit c then digits_run r (acc * 10 + digit_val c) (S cnt)
      else (acc, cnt)
  | EmptyString => (acc, cnt)
  end.

(** The optional sign in front of the digits: whether it is a minus, how
    many bytes it takes, and what follows. *)
Definition sign_of (s : string) : bool * nat * string :=
  match s with
  | String c r =>
      if Ascii.eqb c "-" then (true, 1%nat, r)
      else if Ascii.eqb c "+" then (false, 1%nat, r)
      else (false, 0%nat, s)
  | EmptyString => (false, 0%nat, s)
  end.

(** The subject sequence of [strtol]: optional white space, an optional
    sign and a non-empty run of digits.  [Some (v, k)] is its exact value
    and its length in bytes; [None] when there is no digit. *)
Definition subject (str : string) : option (Z * nat) :=
  let (ws, s1) := skip_space str in
  let '(neg, sg, s2) := sign_of s1 in
  let (v, nd) := digits_run s2 0 0 in
  match nd with
  | O => None
  | S _ => Some (if neg then - v else v, (ws + sg + nd)%nat)
  end.

Record strtol_result : Type := mkStrtol {
  st_val : Z;        (* the value returned *)
  st_end : nat;      (* end - str; 0 when no conversion was performed *)
  st_erange : bool   (* errno was set to ERANGE *)
}.

Definition strtol (str : string) : strtol_result :=
  match subject str with
  | None => mkStrtol 0 0 false
  | Some (v, k) =>
      if v >? LONG_MAX then mkStrtol LONG_MAX k true
      else if v <? LONG_MIN then mkStrtol LONG_MIN k true
      else mkStrtol v k false
  end.

(** *** Floating-point input: [strtod] *)

Record strtod_result : Type := mkStrtod {
  sd_val : spec_float;   (* the value returned *)
  sd_end : nat;          (* end - str; 0 when no conversion was performed *)
  sd_erange : bool       (* errno was set to ERANGE *)
}.

(** A library parser leaves [errno] alone unless it reports a range error. *)
Definition parser_errno (erange : bool) (w : world) : world :=
  if erange then set_errno ERANGE w else w.

(** *** The [check] macro of dbg.h

    [check(A, ...)]: when [A] is false, log, reset [errno] and jump to the
    [error] label; otherwise go on. *)
Definition check {R : Type} (A : bool) (w : world)
    (error : world -> R) (next : world -> R) : R :=
  if A then next w else error (set_errno 0 w).

(** *** Comparison of doubles *)

Definition double_lt (x y : spec_float) : bool := SFltb x y.
Definition double_gt (x y : spec_float) : bool := SFltb y x.

Definition is_nan (x : spec_float) : bool :=
  match x with S754_nan => true | _ => false end.

(** *** [strcmp]: the difference of the first two bytes that differ, as
    unsigned char.  The end of a string reads as NUL, and the comparison
    stops at a NUL. *)
Definition uchar (c : ascii) : Z := Z.of_N (N_of_ascii c).

Fixpoint strcmp (s1 s2 : string) : Z :=
  match s1, s2 with
  | EmptyString, EmptyString => 0
  | EmptyString, String c2 _ => 0 - uchar c2
  | String c1 _, EmptyString => uchar c1 - 0
  | String c1 r1, String c2 r2 =>
      if Ascii.eqb c1 c2
      then if Ascii.eqb c1 NUL then 0 else strcmp r1 r2
      else uchar c1 - uchar c2
  end.

(** The least [k] with [n <= 10^k]: [ceil(log10(n))] for [n >= 1]. *)
Fixpoint ceil_log10_aux (fuel : nat) (n p k : Z) : Z :=
  match fuel with
  | O => k
  | S f => if n <=? p then k else ceil_log10_aux f n (p * 10) (k + 1)
  end.

Definition ceil_log10 (n : Z) : Z :=
  ceil_log10_aux (S (Z.to_nat (Z.log2 n))) n 1 0.

(** The least [k] with [n <= 16^k]: [ceil(log2(n) / 4)] for [n >= 1]. *)
Fixpoint ceil_log16_aux (fuel : nat) (n p k : Z) : Z :=
  match fuel with
  | O => k
  | S f => if n <=? p then k else ceil_log16_aux f n (p * 16) (k + 1)
  end.

Definition ceil_log16 (n : Z) : Z :=
  ceil_log16_aux (S (Z.to_nat (Z.log2 n))) n 1 0.

Definition UINTPTR_MAX : Z := 18446744073709551615.

(** [DBL_MAX_10_EXP] of [float.h] for binary64. *)
Definition DBL_MAX_10_EXP : Z := 308.

(** *** Hexadecimal output: the [PRIxPTR] conversion *)

Definition hex_char (d : Z) : ascii :=
  if d <? 10 then ascii_of_N (48 + Z.to_N d) else ascii_of_N (87 + Z.to_N d).

(** Lowercase hexadecimal digits of a non-negative [n], most significant
    first, pushed in front of [acc]. *)
Fixpoint hex_digits (fuel : nat) (n : Z) (acc : string) : string :=
  match fuel with
  | O => acc
  | S f =>
      let acc' := String (hex_char (n mod 16)) acc in
      if n <? 16 then acc' else hex_digits f (n / 16) acc'
  end.

Definition fmt_lx (n : Z) : string :=
  hex_digits (S (Z.to_nat (Z.log2 n))) n "".

End C.

(** [DEF_NULL] of macros.h. *)
Definition DEF_NULL : string := "null".

(** The one-liner shared by the comparison functions for the case where a
    handle is NULL: [(!p1 < !p2) - (!p1 > !p2)]. *)
Definition cmp_null {A : Type} (p1 p2 : option A) : Z :=
  C.of_bool (C.lnot p1 <? C.lnot p2) - C.of_bool (C.lnot p1 >? C.lnot p2).

(** The pointer a generic handle stands for: NULL when the handle is absent
    and when its address is 0, which is what [!p] tests. *)
Definition pointer (p : option Z) : option Z :=
  match p with
  | Some 0 => None
  | _ => p
  end.

(** [*str]: the first byte of a C string, the NUL when it is empty. *)
Definition first_byte (str : string) : ascii :=
  match str with
  | String c _ => c
  | EmptyString => C.NUL
  end.

(** [strdup]: an allocation holding a copy of the string. *)
Definition strdup (s : string) (w : C.world) : option string * C.world :=
  let (p, w) := C.malloc w in
  (if p then Some s else None, w).

(** ** utilities.c, as found under src/ *)

Module Utilities.
Import C.

Definition MAX_CHAR_LEN : Z := 1.

(** [(size_t) ceil(log10(INT_MAX))] *)
Definition MAX_INT_LEN : Z := ceil_log10 INT_MAX.

Section Printing.
(** The implementation-defined [%p] conversion of an address and the
    [%.*g] conversion of a double, both left to the C library. *)
Variable fmt_p : Z -> string.
Variable fmt_g : nat -> spec_float -> string.

Definition util_generic_print (f : FILE) (p : option Z) : Z * FILE :=
  match pointer p with
  | None => fprintf f (DEF_NULL ++ " ")
  | Some a => fprintf f (fmt_p a ++ " ")
  end.

Definition util_char_print (f : FILE) (c : option ascii) : Z * FILE :=
  match c with
  | None => fprintf f (DEF_NULL ++ " ")
  | Some c => fprintf f (String c " ")
  end.

Definition util_int_print (f : FILE) (i : option Z) : Z * FILE :=
  match i with
  | None => fprintf f (DEF_NULL ++ " ")
  | Some i => fprintf f (fmt_d i ++ " ")
  end.

Definition util_double_print (f : FILE) (d : option spec_float) : Z * FILE :=
  match d with
  | None => fprintf f (DEF_NULL ++ " ")
  | Some d => fprintf f (fmt_g DBL_DIG d)
  end.

(** The handle points to a [char *]. *)
Definition util_string_print (f : FILE) (s : option string) : Z * FILE :=
  match s with
  | None => fprintf f (DEF_NULL ++ " ")
  | Some s => fprintf f (s ++ " ")
  end.
End Printing.

Section Comparison.
Variable char_signed : bool.

Definition util_char_cmp (char1 char2 : option ascii) : Z :=
  match char1, char2 with
  | Some c1, Some c2 => to_int (char_val char_signed c1 - char_val char_signed c2)
  | _, _ => cmp_null char1 char2
  end.
End Comparison.

Definition util_int_cmp (int1 int2 : option Z) : Z :=
  match int1, int2 with
  | Some i1, Some i2 => to_int (i1 - i2)
  | _, _ => cmp_null int1 int2
  end.

Definition util_double_cmp (double1 double2 : option spec_float) : Z :=
  match double1, double2 with
  | Some d1, Some d2 => of_bool (double_gt d1 d2) - of_bool (double_lt d1 d2)
  | _, _ => cmp_null double1 double2
  end.

Definition util_string_cmp (str1 str2 : option string) : Z :=
  match str1, str2 with
  | Some s1, Some s2 => strcmp s1 s2
  | _, _ => cmp_null str1 str2
  end.

Definition util_char_to_string (c : option ascii) (w : world)
  : option string * world :=
  match c with
  | None => (None, w)
  | Some c =>
      let (str, w) := malloc w in
      check str w (fun w => (None, w))
        (fun w => (Some (if Ascii.eqb c NUL then "" else String c ""), w))
  end.

Definition util_int_to_string (n : option Z) (w : world)
  : option string * world :=
  match n with
  | None => (None, w)
  | Some n =>
      let (str, w) := malloc w in
      check str w (fun w => (None, w))
        (fun w => (Some (snprintf (MAX_INT_LEN + 1) (fmt_d n)), w))
  end.

Definition util_string_to_string (s : option string) (w : world)
  : option string * world :=
  match s with
  | None => (None, w)
  | Some s => strdup s w
  end.

Definition util_char_from_string (str : string) (w : world)
  : option ascii * world :=
  let (c, w) := malloc w in
  check c w (fun w => (None, w))
    (fun w => (Some (first_byte str), w)).

Definition util_int_from_string (str : string) (w : world)
  : option Z * world :=
  let (i, w) := malloc w in
  let error := fun w => (None, free i w) in
  check i w error (fun w =>
    let r := strtol str in
    let w := parser_errno (st_erange r) w in
    let tmp := st_val r in
    let w := if (tmp >? INT_MAX) || (tmp <? INT_MAX)
             then set_errno ERANGE w else w in
    check (negb (errno w =? 0)) w error (fun w =>
    check (negb (st_end r =? 0)%nat) w error (fun w =>
      (Some (to_int tmp), w)))).

Section Double.
Variable strtod : string -> strtod_result.

Definition util_double_from_string (str : string) (w : world)
  : option spec_float * world :=
  let (d, w) := malloc w in
  let error := fun w => (None, free d w) in
  check d w error (fun w =>
    let r := strtod str in
    let w := parser_errno (sd_erange r) w in
    check (negb (errno w =? 0)) w error (fun w =>
    check (negb (sd_end r =? 0)%nat) w error (fun w =>
      (Some (sd_val r), w)))).
End Double.

(** The result points to a [char *] that points to the copy. *)
Definition util_string_from_string (str : string) (w : world)
  : option string * world :=
  let (p, w) := malloc w in
  check p w (fun w => (None, free p w)) (fun w =>
    let (s, w) := strdup str w in
    match s with
    | None => (None, free p (set_errno 0 w))
    | Some s => (Some s, w)
    end).

(** [((size_t) ceil(log10((double) LONG_MAX)))] *)
Definition MAX_LONG_LEN : Z := ceil_log10 LONG_MAX.

(** [(1 + DBL_DIG + 1 + 2 + (int) ceil(log10(DBL_MAX_10_EXP)))] *)
Definition MAX_DOUB_LEN : Z :=
  1 + Z.of_nat DBL_DIG + 1 + 2 + ceil_log10 DBL_MAX_10_EXP.

Section ToString.
Variable fmt_p : Z -> string.
Variable fmt_g : nat -> spec_float -> string.

Definition util_generic_to_string (elem : option Z) (w : world)
  : option string * world :=
  match pointer elem with
  | None => (None, w)
  | Some a =>
      let (str, w) := malloc w in
      check str w (fun w => (None, w))
        (fun w => (Some (snprintf (MAX_LONG_LEN + 1) (fmt_p a)), w))
  end.

Definition util_double_to_string (d : option spec_float) (w : world)
  : option string * world :=
  match d with
  | None => (None, w)
  | Some d =>
      let (str, w) := malloc w in
      check str w (fun w => (None, w))
        (fun w => (Some (snprintf (MAX_DOUB_LEN + 1) (fmt_g DBL_DIG d)), w))
  end.
End ToString.

(** [util_string_free]: the handle points to a [char *]; the string it
    points to and the handle itself are both released. *)
Definition util_string_free (str : option string) (w : world) : world :=
  match str with
  | Some _ => free true (free true w)
  | None => w
  end.

End Utilities.

(** ** utilities.c, later revision *)

Module Utilities2.
Import C.

Definition MAX_CHAR_LEN : Z := 1.

(** [(1 + (int) ceil(log10(INT_MAX)))] *)
Definition MAX_INT_LEN : Z := 1 + ceil_log10 INT_MAX.

Section Printing.
(** The [PRIxPTR] conversion of an address and the [%.*g] conversion of a
    double, both left to the C library. *)
Variable fmt_x : Z -> string.
Variable fmt_g : nat -> spec_float -> string.

Definition util_generic_print (file : FILE) (p : option Z) : Z * FILE :=
  match pointer p with
  | None => fprintf file (DEF_NULL ++ " ")
  | Some a => fprintf file ("0x" ++ fmt_x a)
  end.

Definition util_char_print (file : FILE) (c : option ascii) : Z * FILE :=
  match c with
  | None => fprintf file (DEF_NULL ++ " ")
  | Some c => fprintf file (String c " ")
  end.

Definition util_int_print (file : FILE) (i : option Z) : Z * FILE :=
  match i with
  | None => fprintf file (DEF_NULL ++ " ")
  | Some i => fprintf file (fmt_d i ++ " ")
  end.

Definition util_double_print (file : FILE) (d : option spec_float)
  : Z * FILE :=
  match d with
  | None => fprintf file (DEF_NULL ++ " ")
  | Some d => fprintf file (fmt_g DBL_DIG d)
  end.

(** The handle is the [char *] itself. *)
Definition util_string_print (file : FILE) (s : option string) : Z * FILE :=
  match s with
  | None => fprintf file (DEF_NULL ++ " ")
  | Some s => fprintf file (s ++ " ")
  end.
End Printing.

Section Comparison.
Variable char_signed : bool.

Definition util_char_cmp (char1 char2 : option ascii) : Z :=
  match char1, char2 with
  | Some c1, Some c2 => to_int (char_val char_signed c1 - char_val char_signed c2)
  | _, _ => cmp_null char1 char2
  end.
End Comparison.

Definition util_int_cmp (int1 int2 : option Z) : Z :=
  match int1, int2 with
  | Some i1, Some i2 => of_bool (i1 >? i2) - of_bool (i1 <? i2)
  | _, _ => cmp_null int1 int2
  end.

Definition util_double_cmp (double1 double2 : option spec_float) : Z :=
  match double1, double2 with
  | Some d1, Some d2 => of_bool (double_gt d1 d2) - of_bool (double_lt d1 d2)
  | _, _ => cmp_null double1 double2
  end.

Definition util_string_cmp (str1 str2 : option string) : Z :=
  match str1, str2 with
  | Some s1, Some s2 => strcmp s1 s2
  | _, _ => cmp_null str1 str2
  end.

Definition util_char_to_string (c : option ascii) (w : world)
  : option string * world :=
  match c with
  | None => (None, w)
  | Some c =>
      let (str, w) := malloc w in
      check str w (fun w => (None, w))
        (fun w => (Some (if Ascii.eqb c NUL then "" else String c ""), w))
  end.

Definition util_int_to_string (n : option Z) (w : world)
  : option string * world :=
  match n with
  | None => (None, w)
  | Some n =>
      let (str, w) := malloc w in
      check str w (fun w => (None, w))
        (fun w => (Some (snprintf (MAX_INT_LEN + 1) (fmt_d n)), w))
  end.

Definition util_string_to_string (s : option string) (w : world)
  : option string * world :=
  match s with
  | None => (None, w)
  | Some s =>
      let (str, w) := strdup s w in
      match str with
      | None => (None, set_errno 0 w)
      | Some str => (Some str, w)
      end
  end.

Definition util_char_from_string (str : string) (w : world)
  : option ascii * world :=
  let (c, w) := malloc w in
  check c w (fun w => (None, w))
    (fun w => (Some (first_byte str), w)).

Definition util_int_from_string (str : string) (w : world)
  : option Z * world :=
  let (i, w) := malloc w in
  let error := fun w => (None, free i w) in
  check i w error (fun w =>
    let w := set_errno 0 w in
    let r := strtol str in
    let w := parser_errno (st_erange r) w in
    let tmp := st_val r in
    let w := if (tmp >? INT_MAX) || (tmp <? INT_MIN)
             then set_errno ERANGE w else w in
    check (errno w =? 0) w error (fun w =>
    check (negb (st_end r =? 0)%nat) w error (fun w =>
      (Some (to_int tmp), w)))).

Section Double.
Variable strtod : string -> strtod_result.

Definition util_double_from_string (str : string) (w : world)
  : option spec_float * world :=
  let (d, w) := malloc w in
  let error := fun w => (None, free d w) in
  check d w error (fun w =>
    let w := set_errno 0 w in
    let r := strtod str in
    let w := parser_errno (sd_erange r) w in
    check (errno w =? 0) w error (fun w =>
    check (negb (sd_end r =? 0)%nat) w error (fun w =>
      (Some (sd_val r), w)))).
End Double.

Definition util_string_from_string (str : string) (w : world)
  : option string * world :=
  let (s, w) := strdup str w in
  match s with
  | None => (None, set_errno 0 w)
  | Some s => (Some s, w)
  end.

(** [(2 + (int) ceil(log2((double) UINTPTR_MAX) / 4))] *)
Definition MAX_POINTER_LEN : Z := 2 + ceil_log16 UINTPTR_MAX.

(** [(1 + DBL_DIG + 1 + 2 + (int) ceil(log10(DBL_MAX_10_EXP)))] *)
Definition MAX_DOUB_LEN : Z :=
  1 + Z.of_nat DBL_DIG + 1 + 2 + ceil_log10 DBL_MAX_10_EXP.

Section ToString.
Variable fmt_x : Z -> string.
Variable fmt_g : nat -> spec_float -> string.

Definition util_generic_to_string (elem : option Z) (w : world)
  : option string * world :=
  match pointer elem with
  | None => (None, w)
  | Some a =>
      let (str, w) := malloc w in
      check str w (fun w => (None, w))
        (fun w => (Some (snprintf (MAX_POINTER_LEN + 1) ("0x" ++ fmt_x a)), w))
  end.

Definition util_double_to_string (d : option spec_float) (w : world)
  : option string * world :=
  match d with
  | None => (None, w)
  | Some d =>
      let (str, w) := malloc w in
      check str w (fun w => (None, w))
        (fun w => (Some (snprintf (MAX_DOUB_LEN + 1) (fmt_g DBL_DIG d)), w))
  end.
End ToString.

End Utilities2.

(** ** macros.h *)

Module Macros.

(** [MIN], [MAX] and [COMPARE] on integer operands. *)
Definition MIN (a b : Z) : Z := if a <? b then a else b.
Definition MAX (a b : Z) : Z := if a >? b then a else b.
Definition COMPARE (x y : Z) : Z := C.of_bool (x >? y) - C.of_bool (x <? y).

(** [RANGE(i, start, end)] with an [int] counter and a body that leaves
    [i], [start] and [end] alone: the values of [i] the body runs with, in
    order.  [None] when the loop is still running after [fuel] rounds. *)
Fixpoint RANGE_from (fuel : nat) (i start end_ : Z) : option (list Z) :=
  match fuel with
  | O => None
  | S f =>
      if (if end_ >=? start then i <=? end_ else i >=? end_)
      then
        match RANGE_from f
                (if end_ >=? start then C.to_int (i + 1) else C.to_int (i - 1))
                start end_ with
        | Some l => Some (i :: l)
        | None => None
        end
      else Some nil
  end.

Definition RANGE (fuel : nat) (start end_ : Z) : option (list Z) :=
  RANGE_from fuel start start end_.

End Macros.

(** ** Vocabulary of the statements *)

(** Membership in the range of [int], as a test. *)
Definition in_intb (v : Z) : bool := (C.INT_MIN <=? v) && (v <=? C.INT_MAX).

Section OrderDef.
Context {A : Type}.
Variable cmp : option A -> option A -> Z.

(** The relation induced by a comparison function. *)
Definition cmp_le (x y : option A) : Prop := cmp x y <= 0.

(** A total order over "value or absent", absent first.  Antisymmetry is
    read up to the equality the comparison itself decides. *)
Record total_order_with_null : Prop := {
  ord_refl : forall x, cmp_le x x;
  ord_antisym : forall x y, cmp_le x y -> cmp_le y x -> cmp x y = 0;
  ord_trans : forall x y z, cmp_le x y -> cmp_le y z -> cmp_le x z;
  ord_total : forall x y, cmp_le x y \/ cmp_le y x;
  ord_null_first : forall v, cmp None (Some v) < 0 /\ 0 < cmp (Some v) None;
  ord_null_null : cmp None None = 0
}.
End OrderDef.

(** Two doubles: 1.0 and 2.0. *)
Definition double_one : spec_float := S754_finite false 4503599627370496 (-52).
Definition double_two : spec_float := S754_finite false 4503599627370496 (-51).

(** What [strtod] answers on a text whose value overflows, such as
    ["34e+1024"]: plus infinity, the whole text consumed, ERANGE. *)
Definition strtod_overflow (str : string) : C.strtod_result :=
  C.mkStrtod (S754_infinity false) (String.length str) true.

(** A [strtod] that converts nothing. *)
Definition strtod_none (str : string) : C.strtod_result :=
  C.mkStrtod (S754_zero false) 0 false.

(** The doubles that are not NaN. *)
Definition number : Type := { d : spec_float | C.is_nan d = false }.

Definition number_val (x : option number) : option spec_float :=
  match x with
  | Some n => Some (proj1_sig n)
  | None => None
  end.

(** A string without a NUL byte, as every C string is. *)
Fixpoint no_nul (s : string) : bool :=
  match s with
  | String c r => negb (Ascii.eqb c C.NUL) && no_nul r
  | EmptyString => true
  end.

(** The numbers from [a], [n] of them, going up or down. *)
Fixpoint count_up (a : Z) (n : nat) : list Z :=
  match n with
  | O => nil
  | S k => a :: count_up (a + 1) k
  end.

Fixpoint count_down (a : Z) (n : nat) : list Z :=
  match n with
  | O => nil
  | S k => a :: count_down (a - 1) k
  end.

(** * Properties *)

Import C.

(** ** The decimal conversions *)

Section Decimal.

Lemma digit_cases (d : Z) :
  0 <= d < 10 ->
  d = 0 \/ d = 1 \/ d = 2 \/ d = 3 \/ d = 4 \/
  d = 5 \/ d = 6 \/ d = 7 \/ d = 8 \/ d = 9.
Proof. lia. Qed.

Lemma digit_char_props (d : Z) :
  0 <= d < 10 ->
  isdigit (digit_char d) = true /\ digit_val (digit_char d) = d /\
  isspace (digit_char d) = false /\
  Ascii.eqb (digit_char d) "-" = false /\
  Ascii.eqb (digit_char d) "+" = false.
Proof.
  intros H. apply digit_cases in H.
  repeat (destruct H as [H | H]); subst d; repeat split; reflexivity.
Qed.

Lemma mod10_digit (n : Z) : 0 <= n mod 10 < 10.
Proof. apply Z.mod_pos_bound. lia. Qed.

Lemma dec_digits_S (f : nat) (n : Z) (acc : string) :
  dec_digits (S f) n acc =
  if n <? 10 then String (digit_char (n mod 10)) acc
  else dec_digits f (n / 10) (String (digit_char (n mod 10)) acc).
Proof. reflexivity. Qed.

(** Reading back the digits written for [n] yields [n], and at least one
    digit was read. *)
Lemma digits_run_dec_digits (f : nat) :
  forall n acc c,
    0 <= n < 2 ^ Z.of_nat (S f) ->
    exists k, digits_run (dec_digits (S f) n acc) 0 c
              = digits_run acc n (c + S k).
Proof.
  induction f as [| f IH]; intros n acc c Hn.
  - exists 0%nat. rewrite dec_digits_S.
    assert (Hlt : n < 10) by (change (2 ^ Z.of_nat 1) with 2 in Hn; lia).
    apply Z.ltb_lt in Hlt as Hb. rewrite Hb. cbn [digits_run].
    destruct (digit_char_props (n mod 10) (mod10_digit n)) as (Hd & Hv & _).
    rewrite Hd, Hv, Z.mod_small by lia.
    now rewrite Nat.add_1_r.
  - rewrite dec_digits_S. destruct (n <? 10) eqn:Hb.
    + exists 0%nat. apply Z.ltb_lt in Hb. cbn [digits_run].
      destruct (digit_char_props (n mod 10) (mod10_digit n)) as (Hd & Hv & _).
      rewrite Hd, Hv, Z.mod_small by lia.
      now rewrite Nat.add_1_r.
    + apply Z.ltb_ge in Hb.
      assert (Hq : 0 <= n / 10 < 2 ^ Z.of_nat (S f)).
      { split; [apply Z.div_pos; lia |].
        apply Z.div_lt_upper_bound; [lia |].
        replace (Z.of_nat (S (S f))) with (Z.succ (Z.of_nat (S f))) in Hn by lia.
        rewrite Z.pow_succ_r in Hn by lia. lia. }
      destruct (IH (n / 10) (String (digit_char (n mod 10)) acc) c Hq)
        as [k Hk].
      exists (S k). rewrite Hk. cbn [digits_run].
      destruct (digit_char_props (n mod 10) (mod10_digit n)) as (Hd & Hv & _).
      rewrite Hd, Hv.
      replace (n / 10 * 10 + n mod 10) with n
        by (pose proof (Z.div_mod n 10); lia).
      f_equal. lia.
Qed.

(** The text written for a non-negative number starts with a digit. *)
Lemma dec_digits_head (f : nat) :
  forall n acc,
    exists d r, dec_digits (S f) n acc = String (digit_char d) r /\ 0 <= d < 10.
Proof.
  induction f as [| f IH]; intros n acc; rewrite dec_digits_S.
  - exists (n mod 10).
    destruct (n <? 10); eexists; split; try reflexivity; apply mod10_digit.
  - destruct (n <? 10).
    + exists (n mod 10). eexists. split; [reflexivity | apply mod10_digit].
    + apply IH.
Qed.

(** A number below [10^k] is written with at most [k] digits. *)
Lemma dec_digits_length (fuel : nat) :
  forall n acc (k : nat),
    0 <= n < 10 ^ Z.of_nat (S k) ->
    (String.length (dec_digits fuel n acc) <= String.length acc + S k)%nat.
Proof.
  induction fuel as [| fuel IH]; intros n acc k Hn.
  - cbn [dec_digits]. lia.
  - rewrite dec_digits_S. destruct (n <? 10) eqn:Hb.
    + cbn [String.length]. lia.
    + apply Z.ltb_ge in Hb. destruct k as [| k].
      * change (10 ^ Z.of_nat 1) with 10 in Hn. lia.
      * assert (Hq : 0 <= n / 10 < 10 ^ Z.of_nat (S k)).
        { split; [apply Z.div_pos; lia |].
          apply Z.div_lt_upper_bound; [lia |].
          replace (Z.of_nat (S (S k))) with (Z.succ (Z.of_nat (S k))) in Hn
            by lia.
          rewrite Z.pow_succ_r in Hn by lia. lia. }
        specialize (IH (n / 10) (String (digit_char (n mod 10)) acc) k Hq).
        cbn [String.length] in IH. lia.
Qed.

Lemma fmt_u_fuel (n : Z) :
  0 <= n -> 0 <= n < 2 ^ Z.of_nat (S (Z.to_nat (Z.log2 n))).
Proof.
  intros Hn. split; [assumption |].
  destruct (Z.eq_dec n 0) as [-> | Hz]; [reflexivity |].
  rewrite Nat2Z.inj_succ, Z2Nat.id by apply Z.log2_nonneg.
  apply Z.log2_spec. lia.
Qed.

Lemma take_all (s : string) :
  forall n, (String.length s <= n)%nat -> take n s = s.
Proof.
  induction s as [| c r IH]; intros [| n] H; cbn in *;
    try reflexivity; try lia.
  f_equal. apply IH. lia.
Qed.

(** The text of an [int] takes at most eleven bytes. *)
Lemma fmt_d_length (n : Z) :
  in_int n -> (String.length (fmt_d n) <= 11)%nat.
Proof.
  unfold in_int, INT_MIN, INT_MAX, fmt_d, fmt_u. intros Hn.
  destruct (n <? 0) eqn:Hs.
  - apply Z.ltb_lt in Hs. cbn [String.length].
    pose proof (dec_digits_length (S (Z.to_nat (Z.log2 (- n)))) (- n) "" 9)
      as H.
    cbn [String.length] in H. change (10 ^ Z.of_nat 10) with 10000000000 in H.
    apply le_n_S. apply H. lia.
  - apply Z.ltb_ge in Hs.
    pose proof (dec_digits_length (S (Z.to_nat (Z.log2 n))) n "" 9) as H.
    cbn [String.length] in H. change (10 ^ Z.of_nat 10) with 10000000000 in H.
    etransitivity; [apply H; lia | lia].
Qed.

(** What [strtol] makes of the text of a non-negative number. *)
Lemma subject_fmt_u (n : Z) :
  0 <= n -> exists k, subject (fmt_u n) = Some (n, S k).
Proof.
  intros Hn. unfold fmt_u.
  set (f := Z.to_nat (Z.log2 n)).
  destruct (dec_digits_head f n "") as (d & r & Heq & Hd).
  destruct (digits_run_dec_digits f n "" 0 (fmt_u_fuel n Hn)) as [k Hk].
  destruct (digit_char_props d Hd) as (_ & _ & Hsp & Hm & Hp).
  unfold subject. rewrite Heq. cbn [skip_space]. rewrite Hsp.
  cbn [sign_of]. rewrite Hm, Hp. rewrite <- Heq, Hk. cbn [digits_run].
  exists k. reflexivity.
Qed.

(** What [strtol] makes of the text of any number. *)
Lemma subject_fmt_d (n : Z) : exists k, subject (fmt_d n) = Some (n, S k).
Proof.
  unfold fmt_d. destruct (n <? 0) eqn:Hs.
  - apply Z.ltb_lt in Hs.
    assert (Hn : 0 <= - n) by lia.
    unfold fmt_u.
    destruct (digits_run_dec_digits (Z.to_nat (Z.log2 (- n))) (- n) "" 0
                (fmt_u_fuel (- n) Hn)) as [k Hk].
    unfold subject. cbn [skip_space]. change (isspace "-") with false.
    cbn [sign_of]. change (Ascii.eqb "-" "-") with true. cbv iota.
    rewrite Hk. cbn [digits_run]. exists (S k).
    rewrite Z.opp_involutive. reflexivity.
  - apply Z.ltb_ge in Hs. now apply subject_fmt_u.
Qed.

End Decimal.

(** ** Parsing an integer *)

Section IntFromString.

Lemma to_int_id (z : Z) : in_int z -> to_int z = z.
Proof.
  unfold in_int, INT_MIN, INT_MAX, to_int. intros H.
  rewrite Z.mod_small; lia.
Qed.

(** A subject sequence is never empty. *)
Lemma subject_consumes (str : string) (v : Z) (k : nat) :
  subject str = Some (v, k) -> k <> O.
Proof.
  unfold subject.
  destruct (skip_space str) as [ws s1].
  destruct (sign_of s1) as [[neg sg] s2].
  destruct (digits_run s2 0 0) as [v' nd].
  destruct nd; [discriminate |].
  intros [= _ <-]. lia.
Qed.

Lemma in_intb_spec (v : Z) : in_intb v = true <-> in_int v.
Proof.
  unfold in_intb, in_int. rewrite andb_true_iff, !Z.leb_le. tauto.
Qed.

(** The later revision returns the value of the subject sequence when it is
    an [int], and NULL in every other case. *)
Lemma util_int_from_string2_result (str : string) (w : world) :
  fst (Utilities2.util_int_from_string str w) =
  match heap w with
  | O => None
  | S _ =>
      match subject str with
      | None => None
      | Some (v, _) => if in_intb v then Some v else None
      end
  end.
Proof.
  unfold Utilities2.util_int_from_string, malloc.
  destruct w as [e [| h]]; cbn [heap errno]; [reflexivity |].
  unfold check at 1. unfold strtol.
  destruct (subject str) as [[v k] |] eqn:Hs; [| reflexivity].
  apply subject_consumes in Hs.
  assert (Hk : (k =? 0)%nat = false) by now apply Nat.eqb_neq.
  unfold in_intb, INT_MIN, INT_MAX, LONG_MAX, LONG_MIN.
  destruct (v >? 9223372036854775807) eqn:H1.
  { cbn. destruct (Z.leb_spec v 2147483647); [| now rewrite andb_false_r].
    apply Z.gtb_lt in H1. lia. }
  destruct (v <? -9223372036854775808) eqn:H2.
  { cbn. destruct (Z.leb_spec (-2147483648) v); [| reflexivity].
    apply Z.ltb_lt in H2. lia. }
  cbn [st_val st_end st_erange parser_errno].
  destruct (Z.leb_spec (-2147483648) v) as [Hlo | Hlo];
    destruct (Z.leb_spec v 2147483647) as [Hhi | Hhi]; cbn [andb].
  - assert (Hg : (v >? 2147483647) = false)
      by (rewrite Z.gtb_ltb; apply Z.ltb_ge; lia).
    assert (Hl : (v <? -2147483648) = false) by (apply Z.ltb_ge; lia).
    rewrite Hg, Hl. cbn. rewrite Hk. cbn.
    rewrite to_int_id by (unfold in_int, INT_MIN, INT_MAX; lia). reflexivity.
  - assert (Hg : (v >? 2147483647) = true)
      by (rewrite Z.gtb_ltb; apply Z.ltb_lt; lia).
    rewrite Hg. reflexivity.
  - assert (Hl : (v <? -2147483648) = true) by (apply Z.ltb_lt; lia).
    rewrite Hl, orb_true_r. reflexivity.
  - lia.
Qed.

(** In the later revision the result is NULL exactly when the allocation
    fails, no digit was consumed, or the value is not an [int]. *)
Lemma util_int_from_string2_null_iff (str : string) (w : world) :
  fst (Utilities2.util_int_from_string str w) = None <->
  heap w = O \/ subject str = None \/
  (exists v k, subject str = Some (v, k) /\ ~ in_int v).
Proof.
  rewrite util_int_from_string2_result.
  destruct (heap w) as [| h]; [intuition |].
  destruct (subject str) as [[v k] |]; [| intuition].
  destruct (in_intb v) eqn:Hb.
  - apply in_intb_spec in Hb. split; [discriminate |].
    intros [H | [H | (v' & k' & [= <- <-] & Hn)]]; try discriminate.
    contradiction.
  - split; [| reflexivity]. intros _. right. right.
    exists v, k. split; [reflexivity |].
    rewrite <- in_intb_spec, Hb. discriminate.
Qed.

(** Otherwise the result points to the value of the leading run. *)
Lemma util_int_from_string2_value (str : string) (w : world) (v : Z) (k : nat) :
  heap w <> O -> subject str = Some (v, k) -> in_int v ->
  fst (Utilities2.util_int_from_string str w) = Some v.
Proof.
  intros Hh Hs Hv. rewrite util_int_from_string2_result, Hs.
  destruct (heap w); [contradiction |].
  apply in_intb_spec in Hv. now rewrite Hv.
Qed.

(** In src/utilities.c, with memory available, a text with digits is only
    turned down when its value is [INT_MAX] and [errno] was clear: the range
    of [int] is never enforced. *)
Lemma util_int_from_string1_result (str : string) (e : Z) (h : nat)
    (v : Z) (k : nat) :
  subject str = Some (v, k) ->
  fst (Utilities.util_int_from_string str (mkWorld e (S h))) =
  if (st_val (strtol str) =? INT_MAX) && (e =? 0)
     && negb (st_erange (strtol str))
  then None else Some (to_int (st_val (strtol str))).
Proof.
  intros Hs. pose proof (subject_consumes _ _ _ Hs) as Hk.
  apply Nat.eqb_neq in Hk.
  unfold Utilities.util_int_from_string, malloc. cbn [heap errno].
  unfold check at 1.
  assert (He : st_end (strtol str) = k).
  { unfold strtol. rewrite Hs.
    destruct (v >? LONG_MAX); [reflexivity |].
    destruct (v <? LONG_MIN); reflexivity. }
  rewrite He. clear He Hs.
  set (r := strtol str). unfold INT_MAX.
  destruct (Z.eqb_spec (st_val r) 2147483647) as [Heq | Hne].
  - rewrite Heq. cbn [andb orb Z.gtb Z.ltb Z.compare Pos.compare
                      Pos.compare_cont].
    destruct (st_erange r); cbn [parser_errno negb andb].
    + rewrite andb_false_r. cbn. rewrite Hk. reflexivity.
    + rewrite andb_true_r. unfold check at 1.
      destruct (e =? 0) eqn:E0; cbn [errno negb].
      * rewrite E0. reflexivity.
      * rewrite E0. cbn. rewrite Hk. reflexivity.
  - cbn [andb].
    assert (Ho : (st_val r >? 2147483647) || (st_val r <? 2147483647) = true).
    { rewrite Z.gtb_ltb, orb_true_iff, !Z.ltb_lt. lia. }
    rewrite Ho. cbn. rewrite Hk. reflexivity.
Qed.

Example util_int_from_string2_middle :
  fst (Utilities2.util_int_from_string "123abc45" (mkWorld 0 1)) = Some 123.
Proof. reflexivity. Qed.

(** The later revision reads back what it writes. *)
Lemma util_int_round_trip2 (n : Z) (e : Z) (h : nat) :
  in_int n ->
  exists s w,
    Utilities2.util_int_to_string (Some n) (mkWorld e (S (S h))) = (Some s, w) /\
    fst (Utilities2.util_int_from_string s w) = Some n /\
    Utilities2.util_int_cmp (Some n) (Some n) = 0.
Proof.
  intros Hn.
  exists (fmt_d n), (mkWorld e (S h)). split; [| split].
  - unfold Utilities2.util_int_to_string, malloc, check. cbn [heap errno].
    unfold snprintf. rewrite take_all; [reflexivity |].
    apply fmt_d_length in Hn. exact Hn.
  - destruct (subject_fmt_d n) as [k Hk].
    apply (util_int_from_string2_value _ _ n (S k)); cbn; auto.
  - unfold Utilities2.util_int_cmp.
    rewrite Z.gtb_ltb, Z.ltb_irrefl. reflexivity.
Qed.

End IntFromString.

(** ** The comparison functions as orders *)

Section Order.
Context {A : Type}.
Variable cmp : option A -> option A -> Z.

(** It is enough to order the present values, when NULL is handled by the
    shared one-liner. *)
Lemma total_order_lift :
  (forall x y, x = None \/ y = None -> cmp x y = cmp_null x y) ->
  (forall a, cmp (Some a) (Some a) = 0) ->
  (forall a b, cmp (Some a) (Some b) <= 0 -> cmp (Some b) (Some a) <= 0 ->
               cmp (Some a) (Some b) = 0) ->
  (forall a b c, cmp (Some a) (Some b) <= 0 -> cmp (Some b) (Some c) <= 0 ->
                 cmp (Some a) (Some c) <= 0) ->
  (forall a b, cmp (Some a) (Some b) <= 0 \/ cmp (Some b) (Some a) <= 0) ->
  total_order_with_null cmp.
Proof.
  intros Hnull Hrefl Hanti Htrans Htot.
  assert (HNN : cmp None None = 0) by (rewrite Hnull; auto).
  assert (HNS : forall v, cmp None (Some v) = -1) by (intros; rewrite Hnull; auto).
  assert (HSN : forall v, cmp (Some v) None = 1) by (intros; rewrite Hnull; auto).
  split; unfold cmp_le.
  - intros [a |]; [rewrite Hrefl | rewrite HNN]; lia.
  - intros [a |] [b |]; rewrite ?HNN, ?HNS, ?HSN; try lia. apply Hanti.
  - intros [a |] [b |] [c |]; rewrite ?HNN, ?HNS, ?HSN; try lia. apply Htrans.
  - intros [a |] [b |]; rewrite ?HNN, ?HNS, ?HSN; try lia. apply Htot.
  - intros v. rewrite HNS, HSN. lia.
  - exact HNN.
Qed.
End Order.

Section CharOrder.
Variable char_signed : bool.

Lemma char_val_range (c : ascii) : -128 <= char_val char_signed c <= 255.
Proof.
  unfold char_val. pose proof (N_ascii_bounded c) as Hb.
  destruct char_signed; cbn [andb];
    [destruct (Z.leb_spec 128 (Z.of_N (N_of_ascii c))) |]; lia.
Qed.

Lemma char_val_span (c1 c2 : ascii) :
  -255 <= char_val char_signed c1 - char_val char_signed c2 <= 255.
Proof.
  unfold char_val.
  pose proof (N_ascii_bounded c1). pose proof (N_ascii_bounded c2).
  destruct char_signed; cbn [andb];
    [destruct (Z.leb_spec 128 (Z.of_N (N_of_ascii c1)));
     destruct (Z.leb_spec 128 (Z.of_N (N_of_ascii c2))) |]; lia.
Qed.

Lemma util_char_cmp_present (c1 c2 : ascii) :
  Utilities.util_char_cmp char_signed (Some c1) (Some c2)
  = char_val char_signed c1 - char_val char_signed c2.
Proof.
  cbn. apply to_int_id. pose proof (char_val_span c1 c2).
  unfold in_int, INT_MIN, INT_MAX. lia.
Qed.

Lemma util_char_cmp_total_order :
  total_order_with_null (Utilities.util_char_cmp char_signed).
Proof.
  apply total_order_lift.
  - intros x y [-> | ->]; [| destruct x]; reflexivity.
  - intros a. rewrite util_char_cmp_present. lia.
  - intros a b. rewrite !util_char_cmp_present. lia.
  - intros a b c. rewrite !util_char_cmp_present. lia.
  - intros a b. rewrite !util_char_cmp_present. lia.
Qed.
End CharOrder.

Lemma util_int_cmp2_total_order : total_order_with_null Utilities2.util_int_cmp.
Proof.
  apply total_order_lift; cbn.
  - intros x y [-> | ->]; [| destruct x]; reflexivity.
  - intros a. rewrite Z.gtb_ltb, Z.ltb_irrefl. reflexivity.
  - intros a b. rewrite !Z.gtb_ltb.
    destruct (Z.ltb_spec a b), (Z.ltb_spec b a); cbn; lia.
  - intros a b c. rewrite !Z.gtb_ltb.
    destruct (Z.ltb_spec a b), (Z.ltb_spec b a), (Z.ltb_spec b c),
      (Z.ltb_spec c b), (Z.ltb_spec a c), (Z.ltb_spec c a); cbn; lia.
  - intros a b. rewrite !Z.gtb_ltb.
    destruct (Z.ltb_spec a b), (Z.ltb_spec b a); cbn; lia.
Qed.

Section StringOrder.

Lemma uchar_nonneg (c : ascii) : 0 <= uchar c.
Proof. unfold uchar. lia. Qed.

Lemma uchar_inj (c1 c2 : ascii) : uchar c1 = uchar c2 -> c1 = c2.
Proof.
  unfold uchar. intros H. apply N2Z.inj in H.
  rewrite <- (ascii_N_embedding c1), <- (ascii_N_embedding c2).
  now rewrite H.
Qed.

Lemma uchar_neq (c1 c2 : ascii) :
  Ascii.eqb c1 c2 = false -> uchar c1 <> uchar c2.
Proof.
  intros H Heq. apply uchar_inj in Heq. subst.
  now rewrite Ascii.eqb_refl in H.
Qed.

Lemma uchar_zero (c : ascii) : uchar c <= 0 -> c = NUL.
Proof.
  intros H. apply uchar_inj. pose proof (uchar_nonneg c).
  change (uchar NUL) with 0. lia.
Qed.

Lemma strcmp_refl (s : string) : strcmp s s = 0.
Proof.
  induction s as [| c r IH]; cbn; [reflexivity |].
  rewrite Ascii.eqb_refl. now destruct (Ascii.eqb c NUL).
Qed.

Lemma strcmp_opp (s1 : string) : forall s2, strcmp s2 s1 = - strcmp s1 s2.
Proof.
  induction s1 as [| c1 r1 IH]; intros [| c2 r2]; cbn; try lia.
  rewrite (Ascii.eqb_sym c2 c1).
  destruct (Ascii.eqb c1 c2) eqn:E; [| lia].
  apply Ascii.eqb_eq in E. subst c2.
  destruct (Ascii.eqb c1 NUL); [reflexivity | apply IH].
Qed.

Lemma strcmp_trans (s1 : string) :
  forall s2 s3, strcmp s1 s2 <= 0 -> strcmp s2 s3 <= 0 -> strcmp s1 s3 <= 0.
Proof.
  induction s1 as [| x r1 IH]; intros [| y r2] [| z r3]; cbn;
    intros H12 H23; try lia;
    try (pose proof (uchar_nonneg z); lia).
  - (* s2 is empty *)
    assert (x = NUL) by (apply uchar_zero; lia). subst x.
    destruct (Ascii.eqb NUL z) eqn:Ez.
    + now rewrite Ascii.eqb_refl.
    + change (uchar NUL) with 0. pose proof (uchar_nonneg z). lia.
  - (* s3 is empty *)
    assert (y = NUL) by (apply uchar_zero; lia). subst y.
    destruct (Ascii.eqb x NUL) eqn:Ex.
    + apply Ascii.eqb_eq in Ex. subst x. reflexivity.
    + lia.
  - destruct (Ascii.eqb x y) eqn:Exy.
    + apply Ascii.eqb_eq in Exy. subst y.
      destruct (Ascii.eqb x z) eqn:Exz; [| exact H23].
      destruct (Ascii.eqb x NUL); [lia | now apply (IH r2)].
    + pose proof (uchar_neq _ _ Exy).
      destruct (Ascii.eqb y z) eqn:Eyz.
      * apply Ascii.eqb_eq in Eyz. subst z. rewrite Exy. exact H12.
      * pose proof (uchar_neq _ _ Eyz).
        destruct (Ascii.eqb x z) eqn:Exz; [| lia].
        apply Ascii.eqb_eq in Exz. subst z. lia.
Qed.

Lemma util_string_cmp_total_order :
  total_order_with_null Utilities.util_string_cmp.
Proof.
  apply total_order_lift; cbn [Utilities.util_string_cmp].
  - intros x y [-> | ->]; [| destruct x]; reflexivity.
  - apply strcmp_refl.
  - intros a b. rewrite (strcmp_opp a b). lia.
  - intros a b c. apply strcmp_trans.
  - intros a b. rewrite (strcmp_opp a b). lia.
Qed.
End StringOrder.

(** The integer comparison of src/utilities.c is not transitive. *)
Lemma util_int_cmp_not_transitive :
  ~ total_order_with_null Utilities.util_int_cmp.
Proof.
  intros [_ _ Htrans _ _ _].
  specialize (Htrans (Some INT_MIN) (Some 0) (Some INT_MAX)).
  unfold cmp_le in Htrans. cbn in Htrans. lia.
Qed.

(** With a NaN among the values, the double comparison is not transitive. *)
Lemma util_double_cmp_not_transitive :
  ~ total_order_with_null Utilities.util_double_cmp.
Proof.
  intros [_ _ Htrans _ _ _].
  specialize (Htrans (Some double_two) (Some S754_nan) (Some double_one)).
  unfold cmp_le in Htrans. cbn in Htrans. lia.
Qed.

(** ** Writing an integer *)

Section IntToString.

Lemma length_app (s t : string) :
  String.length (s ++ t) = (String.length s + String.length t)%nat.
Proof. induction s as [| c r IH]; cbn; [| rewrite IH]; reflexivity. Qed.

Lemma app_space_neq (s t : string) : s ++ t <> s ++ (t ++ " ").
Proof.
  intros H. apply (f_equal String.length) in H.
  rewrite !length_app in H. cbn in H. lia.
Qed.

(** In the later revision the buffer holds the whole text of any [int]. *)
Lemma util_int_to_string2_exact (n : Z) (e : Z) (h : nat) :
  in_int n ->
  Utilities2.util_int_to_string (Some n) (mkWorld e (S h))
  = (Some (fmt_d n), mkWorld e h) /\
  Z.of_nat (String.length (fmt_d n)) + 1 <= Utilities2.MAX_INT_LEN + 1.
Proof.
  intros Hn. apply fmt_d_length in Hn. split.
  - unfold Utilities2.util_int_to_string, malloc, check, snprintf.
    cbn [heap errno]. rewrite take_all; [reflexivity | exact Hn].
  - change Utilities2.MAX_INT_LEN with 11. lia.
Qed.

End IntToString.

(** ** Parsing a double *)

Section DoubleFromString.
Variable strtod : string -> strtod_result.

(** In the later revision a range error always yields NULL. *)
Lemma util_double_from_string2_range_error (str : string) (w : world) :
  sd_erange (strtod str) = true ->
  fst (Utilities2.util_double_from_string strtod str w) = None.
Proof.
  intros Hr. unfold Utilities2.util_double_from_string, malloc.
  destruct w as [e [| h]]; cbn [heap errno]; [reflexivity |].
  unfold check at 1. rewrite Hr. reflexivity.
Qed.

(** So does a text of which nothing was converted, in both revisions. *)
Lemma util_double_from_string_no_conversion (str : string) (w : world) :
  sd_end (strtod str) = O ->
  fst (Utilities.util_double_from_string strtod str w) = None /\
  fst (Utilities2.util_double_from_string strtod str w) = None.
Proof.
  intros He.
  unfold Utilities.util_double_from_string,
    Utilities2.util_double_from_string, malloc.
  destruct w as [e [| h]]; cbn [heap errno]; [split; reflexivity |].
  unfold check. rewrite He. cbn [Nat.eqb negb].
  split.
  - destruct (negb _); reflexivity.
  - destruct (errno _ =? 0); reflexivity.
Qed.
End DoubleFromString.

(** ** Printing *)

Section Print.

(** The integer, character and string printers end the token with a
    space. *)
Lemma util_int_print_separator (out : string) (i : Z) :
  Utilities.util_int_print (mkFILE out false) (Some i)
  = (Z.of_nat (String.length (fmt_d i ++ " ")),
     mkFILE (out ++ (fmt_d i ++ " ")) false).
Proof. reflexivity. Qed.

Lemma util_char_print_separator (out : string) (c : ascii) :
  Utilities.util_char_print (mkFILE out false) (Some c)
  = (2, mkFILE (out ++ String c " ") false).
Proof. reflexivity. Qed.

Lemma util_string_print_separator (out s : string) :
  Utilities.util_string_print (mkFILE out false) (Some s)
  = (Z.of_nat (String.length (s ++ " ")), mkFILE (out ++ (s ++ " ")) false).
Proof. reflexivity. Qed.
End Print.

(** * The claims *)

(** C1 (fails on src/utilities.c).  The integer parser should return NULL
    exactly on an allocation failure, on a text without digits, or on a
    value outside the range of [int].  In src/utilities.c the range test
    reads [tmp > INT_MAX || tmp < INT_MAX] and the following [check] tests
    [errno != 0]: with [errno] clear and memory available, ["2147483647"]
    (an [int], ten digits consumed) yields NULL, and ["2147483648"] (not an
    [int]) yields a pointer to the wrapped value [INT_MIN].  ["123abc45"]
    does parse as 123. *)
Theorem util_int_from_string_range_test :
  (forall h, fst (Utilities.util_int_from_string "2147483647" (mkWorld 0 (S h)))
             = None) /\
  subject "2147483647" = Some (INT_MAX, 10%nat) /\
  (forall e h, fst (Utilities.util_int_from_string "2147483648" (mkWorld e (S h)))
               = Some INT_MIN) /\
  subject "2147483648" = Some (INT_MAX + 1, 10%nat) /\
  (forall e h, fst (Utilities.util_int_from_string "123abc45" (mkWorld e (S h)))
               = Some 123).
Proof. repeat split; intros; reflexivity. Qed.

(** C2 (fails on src/utilities.c).  Every comparison function should be a
    total order over "value or absent".  The integer comparison of
    src/utilities.c returns the wrapped difference: [INT_MIN] compares
    greater than [INT_MAX], 0 and [INT_MIN] each compare below the other,
    and the induced relation is not a total order.  The double comparison
    is not one either, because of NaN. *)
Theorem util_int_cmp_not_total_order :
  Utilities.util_int_cmp (Some INT_MIN) (Some INT_MAX) = 1 /\
  Utilities.util_int_cmp (Some 0) (Some INT_MIN) < 0 /\
  Utilities.util_int_cmp (Some INT_MIN) (Some 0) < 0 /\
  ~ total_order_with_null Utilities.util_int_cmp /\
  ~ total_order_with_null Utilities.util_double_cmp /\
  ~ total_order_with_null Utilities2.util_double_cmp.
Proof.
  split; [reflexivity |]. split; [reflexivity |]. split; [reflexivity |].
  split; [exact util_int_cmp_not_transitive |].
  split; exact util_double_cmp_not_transitive.
Qed.

(** C3 (fails on src/utilities.c).  Reading back the text written for an
    [int] should give a value equal to it.  In src/utilities.c the text of
    [INT_MIN] is cut to ["-214748364"], which reads back as -214748364, a
    different value; and the text of [INT_MAX], read with [errno] clear,
    gives NULL. *)
Theorem util_int_round_trip_limits :
  (forall e h,
     Utilities.util_int_to_string (Some INT_MIN) (mkWorld e (S (S h)))
     = (Some "-214748364", mkWorld e (S h)) /\
     fst (Utilities.util_int_from_string "-214748364" (mkWorld e (S h)))
     = Some (-214748364)) /\
  Utilities.util_int_cmp (Some (-214748364)) (Some INT_MIN) <> 0 /\
  (forall h,
     Utilities.util_int_to_string (Some INT_MAX) (mkWorld 0 (S (S h)))
     = (Some "2147483647", mkWorld 0 (S h)) /\
     fst (Utilities.util_int_from_string "2147483647" (mkWorld 0 (S h)))
     = None).
Proof.
  split; [intros e h; split; reflexivity |].
  split; [discriminate |].
  intros h; split; reflexivity.
Qed.

(** C4 (fails on src/utilities.c).  The text written for [INT_MIN] should be
    its full decimal text, and the buffer never too small.  In
    src/utilities.c [MAX_INT_LEN] is 10, the buffer holds 11 bytes, and the
    12 bytes of ["-2147483648"] and its NUL do not fit: the result is
    ["-214748364"]. *)
Theorem util_int_to_string_min_cut :
  forall e h,
    fst (Utilities.util_int_to_string (Some INT_MIN) (mkWorld e (S h)))
    = Some "-214748364" /\
    fmt_d INT_MIN = "-2147483648" /\
    Utilities.MAX_INT_LEN + 1 < Z.of_nat (String.length (fmt_d INT_MIN)) + 1.
Proof. intros e h. repeat split. Qed.

(** C5 (fails on src/utilities.c).  A text on which [strtod] reports a
    range error should yield NULL.  In src/utilities.c the [check] after
    [strtod] tests [errno != 0], so that with memory available such a text
    yields a pointer to the value [strtod] returned. *)
Theorem util_double_from_string_range_error
    (strtod : string -> strtod_result) (str : string) (e : Z) (h : nat) :
  sd_erange (strtod str) = true ->
  sd_end (strtod str) <> O ->
  fst (Utilities.util_double_from_string strtod str (mkWorld e (S h)))
  = Some (sd_val (strtod str)).
Proof.
  intros Hr He.
  unfold Utilities.util_double_from_string, malloc. cbn [heap errno].
  unfold check at 1. rewrite Hr. cbn.
  apply Nat.eqb_neq in He. rewrite He. reflexivity.
Qed.

Lemma util_double_from_string_range_error_witness :
  sd_erange (strtod_overflow "34e+1024") = true /\
  sd_end (strtod_overflow "34e+1024") <> O /\
  fst (Utilities.util_double_from_string strtod_overflow "34e+1024"
         (mkWorld 0 1))
  = Some (S754_infinity false).
Proof.
  split; [reflexivity |]. split; [cbn; lia |].
  apply (util_double_from_string_range_error strtod_overflow "34e+1024" 0 0);
    [reflexivity | cbn; lia].
Defined.

(** C6.  On the empty text, in both revisions: the integer and the double
    parsers return NULL (given that [strtod] converts nothing of an empty
    text), with [errno] at 0 and the allocator as it was; with memory
    available, the character parser returns a newly allocated NUL character
    and the string parser a newly allocated empty string (one block for the
    character, one for the string in the later revision, two in
    src/utilities.c, where the result points to a pointer to the copy), and
    [errno] is left alone. *)
Theorem from_string_empty (strtod : string -> strtod_result) :
  sd_end (strtod "") = O ->
  (forall w, Utilities.util_int_from_string "" w
             = (None, mkWorld 0 (heap w))) /\
  (forall w, Utilities2.util_int_from_string "" w
             = (None, mkWorld 0 (heap w))) /\
  (forall w, Utilities.util_double_from_string strtod "" w
             = (None, mkWorld 0 (heap w))) /\
  (forall w, Utilities2.util_double_from_string strtod "" w
             = (None, mkWorld 0 (heap w))) /\
  (forall e h, Utilities.util_char_from_string "" (mkWorld e (S h))
               = (Some NUL, mkWorld e h)) /\
  (forall e h, Utilities2.util_char_from_string "" (mkWorld e (S h))
               = (Some NUL, mkWorld e h)) /\
  (forall e h, Utilities.util_string_from_string "" (mkWorld e (S (S h)))
               = (Some "", mkWorld e h)) /\
  (forall e h, Utilities2.util_string_from_string "" (mkWorld e (S h))
               = (Some "", mkWorld e h)).
Proof.
  intros He.
  split; [intros [e [| h]]; reflexivity |].
  split; [intros [e [| h]]; reflexivity |].
  split.
  { intros [e [| h]]; [reflexivity |].
    unfold Utilities.util_double_from_string, malloc. cbn [heap errno].
    unfold check. rewrite He. cbn [Nat.eqb negb].
    destruct (sd_erange (strtod "")); cbn; [reflexivity |].
    destruct (e =? 0); reflexivity. }
  split.
  { intros [e [| h]]; [reflexivity |].
    unfold Utilities2.util_double_from_string, malloc. cbn [heap errno].
    unfold check. rewrite He. cbn [Nat.eqb negb].
    destruct (sd_erange (strtod "")); reflexivity. }
  repeat split.
Qed.

Lemma from_string_empty_witness :
  sd_end (strtod_none "") = O /\
  Utilities2.util_double_from_string strtod_none "" (mkWorld 7 1)
  = (None, mkWorld 0 1) /\
  Utilities2.util_string_from_string "" (mkWorld 7 1) = (Some "", mkWorld 7 0).
Proof.
  assert (He : sd_end (strtod_none "") = O) by reflexivity.
  split; [exact He |].
  destruct (from_string_empty strtod_none He)
    as (_ & _ & _ & Hd & _ & _ & _ & Hs).
  split; [exact (Hd (mkWorld 7 1)) | exact (Hs 7 0%nat)].
Defined.

(** C7 (fails).  Every printer should write the token and then a single
    space.  In both revisions the double printer writes the token alone:
    what reaches the stream is the [%.*g] text, not that text and a
    space. *)
Theorem util_double_print_no_separator
    (fmt_g : nat -> spec_float -> string) (out : string) (d : spec_float) :
  Utilities.util_double_print fmt_g (mkFILE out false) (Some d)
  = (Z.of_nat (String.length (fmt_g DBL_DIG d)),
     mkFILE (out ++ fmt_g DBL_DIG d) false) /\
  Utilities2.util_double_print fmt_g (mkFILE out false) (Some d)
  = (Z.of_nat (String.length (fmt_g DBL_DIG d)),
     mkFILE (out ++ fmt_g DBL_DIG d) false) /\
  out ++ fmt_g DBL_DIG d <> out ++ (fmt_g DBL_DIG d ++ " ").
Proof.
  split; [reflexivity |]. split; [reflexivity |]. apply app_space_neq.
Qed.

(** C8.  On the NULL handle and a stream that accepts the write, every
    printer of both revisions appends exactly ["null "] and returns 5. *)
Theorem print_null (fmt_p fmt_x : Z -> string)
    (fmt_g : nat -> spec_float -> string) (f : FILE) :
  f_err f = false ->
  let r := (5, mkFILE (f_out f ++ "null ") false) in
  Utilities.util_generic_print fmt_p f None = r /\
  Utilities.util_char_print f None = r /\
  Utilities.util_int_print f None = r /\
  Utilities.util_double_print fmt_g f None = r /\
  Utilities.util_string_print f None = r /\
  Utilities2.util_generic_print fmt_x f None = r /\
  Utilities2.util_char_print f None = r /\
  Utilities2.util_int_print f None = r /\
  Utilities2.util_double_print fmt_g f None = r /\
  Utilities2.util_string_print f None = r /\
  0 <= fst r.
Proof.
  intros Hf r. subst r.
  unfold Utilities.util_generic_print, Utilities.util_char_print,
    Utilities.util_int_print, Utilities.util_double_print,
    Utilities.util_string_print, Utilities2.util_generic_print,
    Utilities2.util_char_print, Utilities2.util_int_print,
    Utilities2.util_double_print, Utilities2.util_string_print, fprintf.
  rewrite Hf. cbn. repeat split; lia.
Qed.

Lemma print_null_witness :
  f_err (mkFILE "" false) = false /\
  Utilities.util_int_print (mkFILE "" false) None = (5, mkFILE "null " false) /\
  Utilities2.util_string_print (mkFILE "" false) None
  = (5, mkFILE "null " false).
Proof.
  split; [reflexivity |].
  split;
    apply (print_null (fun _ => "") (fun _ => "") (fun _ _ => "")
             (mkFILE "" false));
    reflexivity.
Defined.

(** C9.  On two present handles the character comparison of both revisions
    returns the difference of the two character codes; it lies in
    [-255, 255], so nothing wraps and its sign is the order of the codes.
    The integer comparison of src/utilities.c subtracts too, and there the
    difference does wrap. *)
Theorem util_char_cmp_difference (char_signed : bool) (c1 c2 : ascii) :
  let v1 := char_val char_signed c1 in
  let v2 := char_val char_signed c2 in
  let r := Utilities.util_char_cmp char_signed (Some c1) (Some c2) in
  r = v1 - v2 /\
  Utilities2.util_char_cmp char_signed (Some c1) (Some c2) = r /\
  -255 <= r <= 255 /\
  (r < 0 <-> v1 < v2) /\ (r = 0 <-> v1 = v2) /\ (0 < r <-> v2 < v1) /\
  Utilities.util_int_cmp (Some INT_MIN) (Some INT_MAX) = 1.
Proof.
  cbv zeta. rewrite util_char_cmp_present.
  pose proof (char_val_span char_signed c1 c2).
  repeat split; try lia. apply util_char_cmp_present.
Qed.

(** C10.  When one of two present doubles is a NaN the double comparison of
    both revisions returns 0; so a NaN compares equal to 1.0 and to 2.0,
    which do not compare equal to each other. *)
Theorem util_double_cmp_nan (d1 d2 : spec_float) :
  is_nan d1 || is_nan d2 = true ->
  Utilities.util_double_cmp (Some d1) (Some d2) = 0 /\
  Utilities2.util_double_cmp (Some d1) (Some d2) = 0 /\
  Utilities.util_double_cmp (Some double_one) (Some double_two) <> 0.
Proof.
  intros H. cbn. unfold double_gt, double_lt, SFltb.
  assert (H12 : SFcompare d1 d2 = None /\ SFcompare d2 d1 = None).
  { destruct d1, d2; try discriminate H; split; reflexivity. }
  destruct H12 as [-> ->]. repeat split. discriminate.
Qed.

Lemma util_double_cmp_nan_witness :
  is_nan S754_nan || is_nan double_one = true /\
  Utilities.util_double_cmp (Some S754_nan) (Some double_one) = 0 /\
  Utilities.util_double_cmp (Some double_two) (Some S754_nan) = 0.
Proof.
  split; [reflexivity |]. split.
  - apply (util_double_cmp_nan S754_nan double_one). reflexivity.
  - apply (util_double_cmp_nan double_two S754_nan). reflexivity.
Defined.

(** * Further properties of the code *)

(** ** Parsing and writing integers *)

Section MoreIntegers.

Lemma str_app_assoc (s t u : string) : (s ++ t) ++ u = s ++ (t ++ u).
Proof. induction s as [| c r IH]; cbn; [| rewrite IH]; reflexivity. Qed.

Lemma dec_digits_app (f : nat) :
  forall n acc, dec_digits f n acc = dec_digits f n "" ++ acc.
Proof.
  induction f as [| f IH]; intros n acc; [reflexivity |].
  rewrite !dec_digits_S. destruct (n <? 10); [reflexivity |].
  rewrite (IH _ (String _ acc)), (IH _ (String _ "")), str_app_assoc.
  reflexivity.
Qed.

Lemma digits_run_stop (tail : string) (a : Z) (c : nat) :
  isdigit (first_byte tail) = false -> digits_run tail a c = (a, c).
Proof. destruct tail as [| x r]; cbn; [reflexivity |]. now intros ->. Qed.

(** What [strtol] makes of the text of a number followed by anything that
    does not start with a digit. *)
Lemma subject_fmt_d_tail (n : Z) (tail : string) :
  isdigit (first_byte tail) = false ->
  exists k, subject (fmt_d n ++ tail) = Some (n, S k).
Proof.
  intros Ht.
  assert (Hu : forall m, 0 <= m ->
             exists d r k, fmt_u m ++ tail = String (digit_char d) r /\
                           0 <= d < 10 /\
                           digits_run (fmt_u m ++ tail) 0 0 = (m, S k)).
  { intros m Hm. unfold fmt_u. set (f := Z.to_nat (Z.log2 m)).
    rewrite <- dec_digits_app.
    destruct (dec_digits_head f m tail) as (d & r & Heq & Hd).
    destruct (digits_run_dec_digits f m tail 0 (fmt_u_fuel m Hm)) as [k Hk].
    exists d, r, k. rewrite Hk, digits_run_stop by exact Ht. auto. }
  unfold fmt_d. destruct (n <? 0) eqn:Hs.
  - apply Z.ltb_lt in Hs.
    destruct (Hu (- n)) as (d & r & k & _ & _ & Hrun); [lia |].
    unfold subject. cbn [append skip_space]. change (isspace "-") with false.
    cbn [sign_of]. change (Ascii.eqb "-" "-") with true. cbv iota.
    rewrite Hrun. exists (S k). rewrite Z.opp_involutive. reflexivity.
  - apply Z.ltb_ge in Hs.
    destruct (Hu n Hs) as (d & r & k & Heq & Hd & Hrun).
    destruct (digit_char_props d Hd) as (_ & _ & Hsp & Hm & Hp).
    unfold subject. rewrite Heq. cbn [skip_space]. rewrite Hsp.
    cbn [sign_of]. rewrite Hm, Hp. rewrite <- Heq, Hrun.
    exists k. reflexivity.
Qed.

(** The later revision, result and effects together. *)
Lemma util_int_from_string2_full (str : string) (w : world) :
  Utilities2.util_int_from_string str w =
  match heap w with
  | O => (None, mkWorld 0 0)
  | S h =>
      match subject str with
      | Some (v, _) =>
          if in_intb v then (Some v, mkWorld 0 h) else (None, mkWorld 0 (S h))
      | None => (None, mkWorld 0 (S h))
      end
  end.
Proof.
  unfold Utilities2.util_int_from_string, malloc.
  destruct w as [e [| h]]; cbn [heap errno]; [reflexivity |].
  unfold check at 1. unfold strtol.
  destruct (subject str) as [[v k] |] eqn:Hs; [| reflexivity].
  apply subject_consumes in Hs.
  assert (Hk : (k =? 0)%nat = false) by now apply Nat.eqb_neq.
  unfold in_intb, INT_MIN, INT_MAX, LONG_MAX, LONG_MIN.
  destruct (v >? 9223372036854775807) eqn:H1.
  { cbn. destruct (Z.leb_spec v 2147483647); [| now rewrite andb_false_r].
    apply Z.gtb_lt in H1. lia. }
  destruct (v <? -9223372036854775808) eqn:H2.
  { cbn. destruct (Z.leb_spec (-2147483648) v); [| reflexivity].
    apply Z.ltb_lt in H2. lia. }
  cbn [st_val st_end st_erange parser_errno].
  destruct (Z.leb_spec (-2147483648) v) as [Hlo | Hlo];
    destruct (Z.leb_spec v 2147483647) as [Hhi | Hhi]; cbn [andb].
  - assert (Hg : (v >? 2147483647) = false)
      by (rewrite Z.gtb_ltb; apply Z.ltb_ge; lia).
    assert (Hl : (v <? -2147483648) = false) by (apply Z.ltb_ge; lia).
    rewrite Hg, Hl. cbn. rewrite Hk. cbn.
    rewrite to_int_id by (unfold in_int, INT_MIN, INT_MAX; lia). reflexivity.
  - assert (Hg : (v >? 2147483647) = true)
      by (rewrite Z.gtb_ltb; apply Z.ltb_lt; lia).
    rewrite Hg. reflexivity.
  - assert (Hl : (v <? -2147483648) = true) by (apply Z.ltb_lt; lia).
    rewrite Hl, orb_true_r. reflexivity.
  - lia.
Qed.

End MoreIntegers.

(** X1.  [util_int_from_string], later revision: the result is NULL exactly
    when the allocation fails, the text has no digit where a number may
    start, or the value of the leading run is not an [int]; a non-NULL
    result points to the value of the leading run. *)
Theorem util_int_from_string2_contract (str : string) (w : world) :
  (fst (Utilities2.util_int_from_string str w) = None <->
   heap w = O \/ subject str = None \/
   (exists v k, subject str = Some (v, k) /\ ~ in_int v)) /\
  (forall v, fst (Utilities2.util_int_from_string str w) = Some v ->
             in_int v /\ exists k, subject str = Some (v, k)).
Proof.
  rewrite util_int_from_string2_result.
  destruct (heap w) as [| h].
  { split; [intuition | discriminate]. }
  destruct (subject str) as [[v k] |].
  2: { split; [intuition | discriminate]. }
  destruct (in_intb v) eqn:Hb.
  - apply in_intb_spec in Hb. split.
    + split; [discriminate |].
      intros [H | [H | (v' & k' & [= <- <-] & Hn)]]; try discriminate.
      contradiction.
    + intros v' [= <-]. split; [exact Hb | now exists k].
  - split; [| discriminate].
    split; [| reflexivity]. intros _. right. right.
    exists v, k. split; [reflexivity |].
    rewrite <- in_intb_spec, Hb. discriminate.
Qed.

(** X2.  [util_int_from_string], later revision: every call returns with
    [errno] equal to 0, whatever it was and whatever the outcome; a NULL
    result leaves the allocator as it found it, and a non-NULL result has
    taken exactly one block. *)
Theorem util_int_from_string2_effects (str : string) (w : world) :
  let r := Utilities2.util_int_from_string str w in
  errno (snd r) = 0 /\
  match fst r with
  | Some _ => heap w = S (heap (snd r))
  | None => heap (snd r) = heap w
  end.
Proof.
  cbv zeta. rewrite util_int_from_string2_full.
  destruct (heap w) as [| h]; [split; reflexivity |].
  destruct (subject str) as [[v k] |]; [| split; reflexivity].
  destruct (in_intb v); split; reflexivity.
Qed.

(** X3.  [util_int_from_string] of src/utilities.c: a non-NULL result
    always comes with [errno] set (to a non-zero value), a NULL result with
    [errno] cleared; a NULL result leaves the allocator as it found it, and
    a non-NULL result has taken exactly one block. *)
Theorem util_int_from_string1_effects (str : string) (w : world) :
  let r := Utilities.util_int_from_string str w in
  match fst r with
  | Some _ => errno (snd r) <> 0 /\ heap w = S (heap (snd r))
  | None => errno (snd r) = 0 /\ heap (snd r) = heap w
  end.
Proof.
  cbv zeta. unfold Utilities.util_int_from_string, malloc.
  destruct w as [e [| h]]; cbn [heap errno]; [split; reflexivity |].
  unfold check at 1.
  set (r := strtol str).
  destruct (st_erange r); cbn [parser_errno];
    destruct ((st_val r >? INT_MAX) || (st_val r <? INT_MAX));
    unfold check; cbn [errno set_errno heap negb];
    try change (ERANGE =? 0) with false; cbn [negb];
    try (destruct (e =? 0) eqn:E0; cbn [negb]);
    destruct (st_end r =? 0)%nat; cbn;
    repeat split; try discriminate; try reflexivity;
    try (apply Z.eqb_neq; assumption).
Qed.

(** X4.  Later revision: the text written for an [int], followed by
    anything that does not start with a digit, reads back as that [int];
    with nothing after it this is the round trip through
    [util_int_to_string] and [util_int_from_string]. *)
Theorem util_int_round_trip2_tail (n : Z) (tail : string) (e : Z) (h : nat) :
  in_int n ->
  isdigit (first_byte tail) = false ->
  exists s w,
    Utilities2.util_int_to_string (Some n) (mkWorld e (S (S h))) = (Some s, w) /\
    fst (Utilities2.util_int_from_string (s ++ tail) w) = Some n /\
    fst (Utilities2.util_int_from_string s w) = Some n.
Proof.
  intros Hn Ht.
  exists (fmt_d n), (mkWorld e (S h)). split; [| split].
  - unfold Utilities2.util_int_to_string, malloc, check. cbn [heap errno].
    unfold snprintf. rewrite take_all; [reflexivity |].
    apply fmt_d_length in Hn. exact Hn.
  - destruct (subject_fmt_d_tail n tail Ht) as [k Hk].
    apply (util_int_from_string2_value _ _ n (S k)); cbn; auto.
  - destruct (subject_fmt_d n) as [k Hk].
    apply (util_int_from_string2_value _ _ n (S k)); cbn; auto.
Qed.

Lemma util_int_round_trip2_tail_witness :
  in_int (-42) /\ isdigit (first_byte " apples") = false /\
  exists s w,
    Utilities2.util_int_to_string (Some (-42)) (mkWorld 0 2) = (Some s, w) /\
    fst (Utilities2.util_int_from_string (s ++ " apples") w) = Some (-42) /\
    fst (Utilities2.util_int_from_string s w) = Some (-42).
Proof.
  split; [unfold in_int, INT_MIN, INT_MAX; lia |].
  split; [reflexivity |].
  apply (util_int_round_trip2_tail (-42) " apples" 0 0);
    [unfold in_int, INT_MIN, INT_MAX; lia | reflexivity].
Defined.

Section MoreDecimal.

Lemma take_length (s : string) :
  forall n, (String.length (take n s) <= n)%nat.
Proof.
  induction s as [| c r IH]; intros [| n]; cbn; try lia.
  specialize (IH n). lia.
Qed.

Lemma take_exact_iff (n : nat) (s : string) :
  take n s = s <-> (String.length s <= n)%nat.
Proof.
  split; [| apply take_all].
  intros H. rewrite <- H. apply take_length.
Qed.

(** A number that is at least [10^k] is written with more than [k]
    digits. *)
Lemma dec_digits_length_lower (f : nat) :
  forall n acc (k : nat),
    10 ^ Z.of_nat k <= n < 2 ^ Z.of_nat (S f) ->
    (String.length acc + S k <= String.length (dec_digits (S f) n acc))%nat.
Proof.
  induction f as [| f IH]; intros n acc k Hn; rewrite dec_digits_S.
  - change (2 ^ Z.of_nat 1) with 2 in Hn.
    assert (k = O).
    { destruct k; [reflexivity |].
      assert (10 ^ 1 <= 10 ^ Z.of_nat (S k)) by (apply Z.pow_le_mono_r; lia).
      lia. }
    subst k. destruct (n <? 10); cbn [dec_digits String.length]; lia.
  - destruct (n <? 10) eqn:Hb.
    + apply Z.ltb_lt in Hb.
      assert (k = O).
      { destruct k; [reflexivity |].
        assert (10 ^ 1 <= 10 ^ Z.of_nat (S k)) by (apply Z.pow_le_mono_r; lia).
        lia. }
      subst k. cbn [String.length]. lia.
    + apply Z.ltb_ge in Hb. destruct k as [| k].
      * assert (Hq : 10 ^ Z.of_nat 0 <= n / 10 < 2 ^ Z.of_nat (S f)).
        { change (10 ^ Z.of_nat 0) with 1. split.
          - apply Z.div_le_lower_bound; lia.
          - apply Z.div_lt_upper_bound; [lia |].
            replace (Z.of_nat (S (S f))) with (Z.succ (Z.of_nat (S f))) in Hn
              by lia.
            rewrite Z.pow_succ_r in Hn by lia. lia. }
        specialize (IH _ (String (digit_char (n mod 10)) acc) O Hq).
        cbn [String.length] in IH. lia.
      * assert (Hq : 10 ^ Z.of_nat k <= n / 10 < 2 ^ Z.of_nat (S f)).
        { split.
          - apply Z.div_le_lower_bound; [lia |].
            replace (Z.of_nat (S k)) with (Z.succ (Z.of_nat k)) in Hn by lia.
            rewrite Z.pow_succ_r in Hn by lia. lia.
          - apply Z.div_lt_upper_bound; [lia |].
            replace (Z.of_nat (S (S f))) with (Z.succ (Z.of_nat (S f))) in Hn
              by lia.
            rewrite Z.pow_succ_r in Hn by lia. lia. }
        specialize (IH _ (String (digit_char (n mod 10)) acc) k Hq).
        cbn [String.length] in IH. lia.
Qed.

(** The text of an [int] fits in ten bytes exactly when the number is
    above -10^9. *)
Lemma fmt_d_length_10 (n : Z) :
  in_int n ->
  ((String.length (fmt_d n) <= 10)%nat <-> -1000000000 < n).
Proof.
  unfold in_int, INT_MIN, INT_MAX, fmt_d, fmt_u. intros Hn.
  destruct (n <? 0) eqn:Hs.
  - apply Z.ltb_lt in Hs. cbn [String.length]. split.
    + intros Hlen.
      destruct (Z.lt_ge_cases (-1000000000) n) as [| Hge]; [assumption |].
      pose proof (dec_digits_length_lower (Z.to_nat (Z.log2 (- n))) (- n) "" 9)
        as H.
      cbn [String.length] in H.
      change (10 ^ Z.of_nat 9) with 1000000000 in H.
      assert (9 + 1 <= String.length
                (dec_digits (S (Z.to_nat (Z.log2 (- n)))) (- n) ""))%nat.
      { apply H. split; [lia |]. apply fmt_u_fuel. lia. }
      lia.
    + intros Hgt.
      pose proof (dec_digits_length (S (Z.to_nat (Z.log2 (- n)))) (- n) "" 8)
        as H.
      cbn [String.length] in H.
      change (10 ^ Z.of_nat 9) with 1000000000 in H.
      apply le_n_S. apply H. lia.
  - apply Z.ltb_ge in Hs. split; [lia |]. intros _.
    pose proof (dec_digits_length (S (Z.to_nat (Z.log2 n))) n "" 9) as H.
    cbn [String.length] in H. change (10 ^ Z.of_nat 10) with 10000000000 in H.
    apply H. lia.
Qed.

Lemma strtol_in_range (str : string) (v : Z) (k : nat) :
  subject str = Some (v, k) -> LONG_MIN <= v <= LONG_MAX ->
  strtol str = mkStrtol v k false.
Proof.
  intros Hs Hv. unfold strtol. rewrite Hs.
  assert (H1 : (v >? LONG_MAX) = false)
    by (rewrite Z.gtb_ltb; apply Z.ltb_ge; lia).
  assert (H2 : (v <? LONG_MIN) = false) by (apply Z.ltb_ge; lia).
  now rewrite H1, H2.
Qed.

End MoreDecimal.

(** X5.  [util_int_to_string] of src/utilities.c, with memory available:
    the string returned is the full decimal text of the [int] exactly when
    the number is above -10^9; for the other numbers (ten digits and a
    sign) it is that text without its last digit. *)
Theorem util_int_to_string1_exact_iff (n : Z) (e : Z) (h : nat) :
  in_int n ->
  fst (Utilities.util_int_to_string (Some n) (mkWorld e (S h)))
  = Some (take 10 (fmt_d n)) /\
  (take 10 (fmt_d n) = fmt_d n <-> -1000000000 < n).
Proof.
  intros Hn. split; [reflexivity |].
  rewrite take_exact_iff. now apply fmt_d_length_10.
Qed.

Lemma util_int_to_string1_exact_iff_witness :
  in_int (-999999999) /\
  fst (Utilities.util_int_to_string (Some (-999999999)) (mkWorld 0 1))
  = Some "-999999999".
Proof.
  assert (Hn : in_int (-999999999)) by (unfold in_int, INT_MIN, INT_MAX; lia).
  split; [exact Hn |].
  exact (proj1 (util_int_to_string1_exact_iff (-999999999) 0 0 Hn)).
Defined.

(** X6.  src/utilities.c: for every [int] above -10^9 other than
    [INT_MAX], whatever [errno] holds, reading back the text written for it
    gives a value that compares equal to it. *)
Theorem util_int_round_trip1 (n : Z) (e : Z) (h : nat) :
  in_int n -> -1000000000 < n -> n <> INT_MAX ->
  exists s w v,
    Utilities.util_int_to_string (Some n) (mkWorld e (S (S h))) = (Some s, w) /\
    fst (Utilities.util_int_from_string s w) = Some v /\
    Utilities.util_int_cmp (Some v) (Some n) = 0.
Proof.
  intros Hn Hlo Hmax.
  exists (fmt_d n), (mkWorld e (S h)), n. split; [| split].
  - unfold Utilities.util_int_to_string, malloc, check. cbn [heap errno].
    unfold snprintf. change (Z.to_nat (Utilities.MAX_INT_LEN + 1 - 1)) with 10%nat.
    rewrite take_all; [reflexivity |]. now apply fmt_d_length_10.
  - destruct (subject_fmt_d n) as [k Hk].
    rewrite (util_int_from_string1_result _ e h n (S k) Hk).
    rewrite (strtol_in_range _ n (S k) Hk)
      by (unfold in_int, INT_MIN, INT_MAX, LONG_MIN, LONG_MAX in *; lia).
    cbn [st_val st_erange].
    apply Z.eqb_neq in Hmax. rewrite Hmax. cbn [andb].
    now rewrite to_int_id.
  - cbn. rewrite Z.sub_diag. reflexivity.
Qed.

Lemma util_int_round_trip1_witness :
  in_int 2147483646 /\ -1000000000 < 2147483646 /\ 2147483646 <> INT_MAX /\
  exists s w v,
    Utilities.util_int_to_string (Some 2147483646) (mkWorld 0 2) = (Some s, w) /\
    fst (Utilities.util_int_from_string s w) = Some v /\
    Utilities.util_int_cmp (Some v) (Some 2147483646) = 0.
Proof.
  assert (Hn : in_int 2147483646) by (unfold in_int, INT_MIN, INT_MAX; lia).
  split; [exact Hn |]. split; [lia |].
  split; [unfold INT_MAX; lia |].
  apply (util_int_round_trip1 2147483646 0 0 Hn); [lia | unfold INT_MAX; lia].
Defined.

(** X7.  Later revision: with memory available, [util_int_to_string]
    returns the full decimal text of every [int], at most eleven bytes; and
    what [util_int_print] appends to a stream is that same text and one
    space, the count returned being its length plus one. *)
Theorem util_int_print2_to_string (n : Z) (out : string) (e : Z) (h : nat) :
  in_int n ->
  Utilities2.util_int_to_string (Some n) (mkWorld e (S h))
  = (Some (fmt_d n), mkWorld e h) /\
  (String.length (fmt_d n) <= 11)%nat /\
  Utilities2.util_int_print (mkFILE out false) (Some n)
  = (Z.of_nat (String.length (fmt_d n)) + 1,
     mkFILE (out ++ (fmt_d n ++ " ")) false).
Proof.
  intros Hn. apply fmt_d_length in Hn as Hlen. split; [| split].
  - unfold Utilities2.util_int_to_string, malloc, check, snprintf.
    cbn [heap errno]. rewrite take_all; [reflexivity | exact Hlen].
  - exact Hlen.
  - unfold Utilities2.util_int_print, fprintf. cbn [f_err f_out].
    rewrite length_app. cbn [String.length]. f_equal. lia.
Qed.

Lemma util_int_print2_to_string_witness :
  in_int INT_MIN /\
  Utilities2.util_int_to_string (Some INT_MIN) (mkWorld 0 1)
  = (Some "-2147483648", mkWorld 0 0) /\
  Utilities2.util_int_print (mkFILE "" false) (Some INT_MIN)
  = (12, mkFILE "-2147483648 " false).
Proof.
  assert (Hn : in_int INT_MIN) by (unfold in_int, INT_MIN, INT_MAX; lia).
  split; [exact Hn |].
  destruct (util_int_print2_to_string INT_MIN "" 0 0 Hn) as (H1 & _ & H3).
  split; [exact H1 | exact H3].
Defined.

(** ** More on the comparison functions *)

Section MoreOrders.

Lemma to_int_high (z : Z) :
  INT_MAX < z <= 4294967295 -> to_int z = z - 4294967296.
Proof.
  unfold INT_MAX, to_int. intros H.
  rewrite <- (Z.mod_unique (z + 2147483648) 4294967296 1 (z - 2147483648));
    lia.
Qed.

Lemma to_int_low (z : Z) :
  -4294967295 <= z < INT_MIN -> to_int z = z + 4294967296.
Proof.
  unfold INT_MIN, to_int. intros H.
  rewrite <- (Z.mod_unique (z + 2147483648) 4294967296 (-1) (z + 6442450944));
    lia.
Qed.

Lemma char_val_inj (sg : bool) (c1 c2 : ascii) :
  char_val sg c1 = char_val sg c2 -> c1 = c2.
Proof.
  intros H. apply uchar_inj. unfold uchar. unfold char_val in H.
  pose proof (N_ascii_bounded c1). pose proof (N_ascii_bounded c2).
  destruct sg; cbn [andb] in H; [| exact H].
  destruct (Z.leb_spec 128 (Z.of_N (N_of_ascii c1)));
    destruct (Z.leb_spec 128 (Z.of_N (N_of_ascii c2))); lia.
Qed.

Lemma strcmp_zero_eq (s1 : string) :
  forall s2, no_nul s1 = true -> no_nul s2 = true ->
             strcmp s1 s2 = 0 -> s1 = s2.
Proof.
  induction s1 as [| x r1 IH]; intros [| y r2]; cbn; intros H1 H2 H;
    try reflexivity.
  - apply andb_true_iff in H2 as [Hy _].
    assert (y = NUL) by (apply uchar_zero; lia). subst y. discriminate.
  - apply andb_true_iff in H1 as [Hx _].
    assert (x = NUL) by (apply uchar_zero; lia). subst x. discriminate.
  - apply andb_true_iff in H1 as [Hx H1].
    apply andb_true_iff in H2 as [Hy H2].
    destruct (Ascii.eqb x y) eqn:Exy.
    + apply Ascii.eqb_eq in Exy. subst y.
      apply negb_true_iff in Hx. rewrite Hx in H.
      f_equal. now apply IH.
    + apply uchar_neq in Exy. lia.
Qed.

Lemma SFcompare_flip (x y : spec_float) :
  SFcompare y x = option_map CompOpp (SFcompare x y).
Proof.
  destruct x as [sx | sx | | sx mx ex], y as [sy | sy | | sy my ey]; cbn;
    try reflexivity;
    try (destruct sx; reflexivity); try (destruct sy; reflexivity);
    try (destruct sx, sy; reflexivity).
  change (Pos.compare_cont Eq my mx) with (Pos.compare my mx).
  change (Pos.compare_cont Eq mx my) with (Pos.compare mx my).
  destruct sx, sy; try reflexivity; f_equal;
    destruct (Z.compare_spec ex ey); destruct (Z.compare_spec ey ex);
    try lia; cbn; try reflexivity;
    destruct (Pos.compare_spec mx my); destruct (Pos.compare_spec my mx);
    try lia; reflexivity.
Qed.

(** The value of the double comparison, from the IEEE comparison. *)
Lemma util_double_cmp_present (x y : spec_float) :
  Utilities.util_double_cmp (Some x) (Some y) =
  match SFcompare x y with
  | Some Lt => -1
  | Some Gt => 1
  | _ => 0
  end.
Proof.
  cbn. unfold double_gt, double_lt, SFltb.
  rewrite (SFcompare_flip x y).
  destruct (SFcompare x y) as [[| |] |]; reflexivity.
Qed.

Lemma SFcompare_refl (x : spec_float) :
  is_nan x = false -> SFcompare x x = Some Eq.
Proof.
  destruct x as [s | s | | s m e]; cbn; try discriminate; intros _;
    try reflexivity; try (destruct s; reflexivity).
  destruct s; rewrite Z.compare_refl;
    change (Pos.compare_cont Eq m m) with (Pos.compare m m);
    rewrite Pos.compare_refl; reflexivity.
Qed.

Lemma SFcompare_number (x y : spec_float) :
  is_nan x = false -> is_nan y = false -> SFcompare x y <> None.
Proof.
  destruct x, y; cbn; try discriminate; intros _ _; discriminate.
Qed.

(** Not-greater is transitive on the doubles that are not NaN. *)
Lemma SFcompare_trans (x y z : spec_float) :
  is_nan x = false -> is_nan y = false -> is_nan z = false ->
  SFcompare x y <> Some Gt -> SFcompare y z <> Some Gt ->
  SFcompare x z <> Some Gt.
Proof.
  destruct x as [sx | sx | | sx mx ex], y as [sy | sy | | sy my ey],
    z as [sz | sz | | sz mz ez]; cbn; try discriminate; intros _ _ _;
    try (destruct sx); try (destruct sy); try (destruct sz);
    try congruence; try discriminate;
    change (Pos.compare_cont Eq mx my) with (Pos.compare mx my);
    change (Pos.compare_cont Eq my mz) with (Pos.compare my mz);
    change (Pos.compare_cont Eq mx mz) with (Pos.compare mx mz);
    destruct (Z.compare_spec ex ey); destruct (Z.compare_spec ey ez);
    destruct (Z.compare_spec ex ez); try lia; try congruence;
    destruct (Pos.compare_spec mx my); destruct (Pos.compare_spec my mz);
    destruct (Pos.compare_spec mx mz); cbn; try lia; congruence.
Qed.

End MoreOrders.

(** X8.  [util_int_cmp], later revision: a total order over "value or
    NULL" with NULL first; on two present values it returns what the
    [COMPARE] macro computes: -1, 0 or 1 as the first is less than, equal
    to or greater than the second. *)
Theorem util_int_cmp2_order :
  total_order_with_null Utilities2.util_int_cmp /\
  forall a b,
    Utilities2.util_int_cmp (Some a) (Some b) = Macros.COMPARE a b /\
    (Macros.COMPARE a b = -1 <-> a < b) /\
    (Macros.COMPARE a b = 0 <-> a = b) /\
    (Macros.COMPARE a b = 1 <-> b < a).
Proof.
  split; [exact util_int_cmp2_total_order |].
  intros a b. split; [reflexivity |].
  unfold Macros.COMPARE. rewrite Z.gtb_ltb.
  destruct (Z.ltb_spec a b), (Z.ltb_spec b a); cbn; lia.
Qed.

(** X9.  [util_int_cmp] of src/utilities.c on two present [int] values:
    the sign of the result is the order of the two values exactly when
    their difference is itself an [int]. *)
Theorem util_int_cmp1_sign_iff (i1 i2 : Z) :
  in_int i1 -> in_int i2 ->
  let r := Utilities.util_int_cmp (Some i1) (Some i2) in
  ((r < 0 <-> i1 < i2) /\ (r = 0 <-> i1 = i2) /\ (0 < r <-> i2 < i1))
  <-> in_int (i1 - i2).
Proof.
  intros H1 H2. cbn.
  destruct (Z.le_gt_cases (i1 - i2) INT_MAX) as [Hhi | Hhi];
    [destruct (Z.le_gt_cases INT_MIN (i1 - i2)) as [Hlo | Hlo] |].
  - rewrite to_int_id by (split; assumption).
    unfold in_int. lia.
  - rewrite to_int_low
      by (unfold in_int, INT_MIN, INT_MAX in *; lia).
    unfold in_int, INT_MIN, INT_MAX in *. lia.
  - rewrite to_int_high
      by (unfold in_int, INT_MIN, INT_MAX in *; lia).
    unfold in_int, INT_MIN, INT_MAX in *. lia.
Qed.

Lemma util_int_cmp1_sign_iff_witness :
  in_int 7 /\ in_int 2147483647 /\
  (Utilities.util_int_cmp (Some 7) (Some 2147483647) < 0 <-> 7 < 2147483647).
Proof.
  assert (H1 : in_int 7) by (unfold in_int, INT_MIN, INT_MAX; lia).
  assert (H2 : in_int 2147483647) by (unfold in_int, INT_MIN, INT_MAX; lia).
  split; [exact H1 |]. split; [exact H2 |].
  apply (util_int_cmp1_sign_iff 7 2147483647 H1 H2).
  unfold in_int, INT_MIN, INT_MAX. lia.
Defined.

(** X10.  [util_char_cmp], both revisions, for signed and for unsigned
    plain [char]: a total order over "value or NULL" with NULL first, and
    two present characters compare equal only when they are the same
    character. *)
Theorem util_char_cmp_order (char_signed : bool) :
  total_order_with_null (Utilities.util_char_cmp char_signed) /\
  total_order_with_null (Utilities2.util_char_cmp char_signed) /\
  forall c1 c2,
    Utilities.util_char_cmp char_signed (Some c1) (Some c2) = 0 <-> c1 = c2.
Proof.
  split; [apply util_char_cmp_total_order |].
  split; [apply util_char_cmp_total_order |].
  intros c1 c2. rewrite util_char_cmp_present. split.
  - intros H. apply (char_val_inj char_signed). lia.
  - intros ->. lia.
Qed.

(** X11.  [util_string_cmp], both revisions: a total order over "value or
    NULL" with NULL first, and swapping the two handles negates the
    result. *)
Theorem util_string_cmp_order :
  total_order_with_null Utilities.util_string_cmp /\
  total_order_with_null Utilities2.util_string_cmp /\
  forall p1 p2,
    Utilities.util_string_cmp p2 p1 = - Utilities.util_string_cmp p1 p2.
Proof.
  split; [exact util_string_cmp_total_order |].
  split; [exact util_string_cmp_total_order |].
  intros [s1 |] [s2 |]; cbn; try reflexivity. apply strcmp_opp.
Qed.

(** X12.  [util_string_cmp] on two present strings returns 0 exactly when
    the two strings hold the same bytes. *)
Theorem util_string_cmp_zero_iff (s1 s2 : string) :
  no_nul s1 = true -> no_nul s2 = true ->
  (Utilities.util_string_cmp (Some s1) (Some s2) = 0 <-> s1 = s2) /\
  (Utilities2.util_string_cmp (Some s1) (Some s2) = 0 <-> s1 = s2).
Proof.
  intros H1 H2. cbn.
  split; (split; [now apply strcmp_zero_eq | intros ->; apply strcmp_refl]).
Qed.

Lemma util_string_cmp_zero_iff_witness :
  no_nul "aaa" = true /\ no_nul "aab" = true /\
  (Utilities.util_string_cmp (Some "aaa") (Some "aab") = 0 <-> "aaa" = "aab").
Proof.
  split; [reflexivity |]. split; [reflexivity |].
  apply (util_string_cmp_zero_iff "aaa" "aab"); reflexivity.
Defined.

(** X13.  [util_double_cmp], both revisions: swapping the two handles
    negates the result, for every pair of handles; and over NULL and the
    doubles that are not NaN it is a total order with NULL first. *)
Theorem util_double_cmp_order :
  (forall p1 p2,
     Utilities.util_double_cmp p2 p1 = - Utilities.util_double_cmp p1 p2 /\
     Utilities2.util_double_cmp p1 p2 = Utilities.util_double_cmp p1 p2) /\
  total_order_with_null
    (fun x y => Utilities.util_double_cmp (number_val x) (number_val y)).
Proof.
  split.
  - intros [x |] [y |]; split; try reflexivity.
    rewrite !util_double_cmp_present, (SFcompare_flip x y).
    destruct (SFcompare x y) as [[| |] |]; reflexivity.
  - apply total_order_lift.
    + intros x y [-> | ->]; [destruct y | destruct x]; reflexivity.
    + intros [a Ha]. cbn [number_val proj1_sig].
      rewrite util_double_cmp_present, SFcompare_refl by exact Ha.
      reflexivity.
    + intros [a Ha] [b Hb]. cbn [number_val proj1_sig].
      rewrite !util_double_cmp_present, (SFcompare_flip a b).
      destruct (SFcompare a b) as [[| |] |]; cbn; lia.
    + intros [a Ha] [b Hb] [c Hc]. cbn [number_val proj1_sig].
      rewrite !util_double_cmp_present.
      pose proof (SFcompare_trans a b c Ha Hb Hc) as Ht.
      destruct (SFcompare a b) as [[| |] |]; try lia;
        destruct (SFcompare b c) as [[| |] |]; try lia;
        destruct (SFcompare a c) as [[| |] |]; try lia;
        intros _ _; exfalso; apply Ht; congruence.
    + intros [a Ha] [b Hb]. cbn [number_val proj1_sig].
      rewrite !util_double_cmp_present, (SFcompare_flip a b).
      destruct (SFcompare a b) as [[| |] |]; cbn; lia.
Qed.

(** ** Characters, strings, doubles and pointers *)

(** X14.  Both revisions, with memory available: the string written for a
    character, the NUL character included, reads back as that character,
    and the two allocations are the only effect. *)
Theorem util_char_round_trip (char_signed : bool) (c : ascii) (e : Z) (h : nat) :
  exists s w p,
    Utilities.util_char_to_string (Some c) (mkWorld e (S (S h))) = (Some s, w) /\
    Utilities2.util_char_to_string (Some c) (mkWorld e (S (S h))) = (Some s, w) /\
    Utilities.util_char_from_string s w = (Some p, mkWorld e h) /\
    Utilities2.util_char_from_string s w = (Some p, mkWorld e h) /\
    p = c /\
    Utilities.util_char_cmp char_signed (Some p) (Some c) = 0.
Proof.
  exists (if Ascii.eqb c NUL then "" else String c ""), (mkWorld e (S h)), c.
  split; [reflexivity |]. split; [reflexivity |].
  assert (Hf : first_byte (if Ascii.eqb c NUL then "" else String c "") = c).
  { destruct (Ascii.eqb c NUL) eqn:E; [| reflexivity].
    apply Ascii.eqb_eq in E. now subst c. }
  unfold Utilities.util_char_from_string, Utilities2.util_char_from_string,
    malloc, check. cbn [heap errno]. rewrite Hf.
  repeat split. rewrite util_char_cmp_present. lia.
Qed.

(** X15.  src/utilities.c: [util_string_from_string] either returns a copy
    of the whole text or NULL, and it returns the copy whenever two
    allocations can succeed; a NULL result leaves [errno] at 0; and
    releasing the result with [util_string_free] leaves the allocator as
    it was before the call, in every case. *)
Theorem util_string_from_string1_free (str : string) (w : world) :
  let r := Utilities.util_string_from_string str w in
  (fst r = Some str \/ fst r = None /\ errno (snd r) = 0) /\
  ((2 <= heap w)%nat -> fst r = Some str) /\
  heap (Utilities.util_string_free (fst r) (snd r)) = heap w.
Proof.
  cbv zeta. unfold Utilities.util_string_from_string, strdup, malloc.
  destruct w as [e [| [| h]]]; cbn; repeat split; auto; lia.
Qed.

(** X16.  [util_double_from_string], later revision: the result is NULL
    exactly when the allocation fails, [strtod] reports a range error, or
    nothing was converted; otherwise it points to the value [strtod]
    returned.  Every call returns with [errno] equal to 0, and a NULL
    result leaves the allocator as it found it. *)
Theorem util_double_from_string2_contract
    (strtod : string -> strtod_result) (str : string) (w : world) :
  Utilities2.util_double_from_string strtod str w =
  match heap w with
  | O => (None, mkWorld 0 0)
  | S h =>
      if sd_erange (strtod str) || (sd_end (strtod str) =? 0)%nat
      then (None, mkWorld 0 (S h))
      else (Some (sd_val (strtod str)), mkWorld 0 h)
  end.
Proof.
  unfold Utilities2.util_double_from_string, malloc.
  destruct w as [e [| h]]; cbn [heap errno]; [reflexivity |].
  unfold check at 1.
  destruct (sd_erange (strtod str)); [reflexivity |].
  cbn. destruct (sd_end (strtod str) =? 0)%nat; reflexivity.
Qed.

(** X17.  [util_double_from_string] of src/utilities.c, with memory
    available: a text of which [strtod] converted something is accepted
    only when [strtod] reported a range error or [errno] was already set on
    entry; with [errno] clear, a text converted without a range error
    yields NULL. *)
Theorem util_double_from_string1_contract
    (strtod : string -> strtod_result) (str : string) (e : Z) (h : nat) :
  fst (Utilities.util_double_from_string strtod str (mkWorld e (S h))) =
  if (sd_erange (strtod str) || negb (e =? 0))
     && negb (sd_end (strtod str) =? 0)%nat
  then Some (sd_val (strtod str)) else None.
Proof.
  unfold Utilities.util_double_from_string, malloc. cbn [heap errno].
  unfold check at 1.
  destruct (sd_erange (strtod str)); cbn [parser_errno orb].
  - cbn. destruct (sd_end (strtod str) =? 0)%nat; reflexivity.
  - unfold check at 1. cbn [errno].
    destruct (e =? 0); cbn [negb]; [reflexivity |].
    unfold check. destruct (sd_end (strtod str) =? 0)%nat; reflexivity.
Qed.

(** X18.  Both revisions: a copy made by [util_string_to_string] and read
    back by [util_string_from_string] holds the bytes of the original and
    compares equal to it. *)
Theorem util_string_round_trip (s : string) (e : Z) (h : nat) :
  (exists w,
     Utilities.util_string_to_string (Some s) (mkWorld e (S (S (S h))))
     = (Some s, w) /\
     fst (Utilities.util_string_from_string s w) = Some s) /\
  (exists w,
     Utilities2.util_string_to_string (Some s) (mkWorld e (S (S h)))
     = (Some s, w) /\
     fst (Utilities2.util_string_from_string s w) = Some s) /\
  Utilities.util_string_cmp (Some s) (Some s) = 0 /\
  Utilities2.util_string_cmp (Some s) (Some s) = 0.
Proof.
  split; [exists (mkWorld e (S (S h))); split; reflexivity |].
  split; [exists (mkWorld e (S h)); split; reflexivity |].
  split; apply strcmp_refl.
Qed.

Section MoreHex.

Lemma hex_digits_S (f : nat) (n : Z) (acc : string) :
  hex_digits (S f) n acc =
  if n <? 16 then String (hex_char (n mod 16)) acc
  else hex_digits f (n / 16) (String (hex_char (n mod 16)) acc).
Proof. reflexivity. Qed.

(** A number below [16^k] is written with at most [k] hexadecimal
    digits. *)
Lemma hex_digits_length (fuel : nat) :
  forall n acc (k : nat),
    0 <= n < 16 ^ Z.of_nat (S k) ->
    (String.length (hex_digits fuel n acc) <= String.length acc + S k)%nat.
Proof.
  induction fuel as [| fuel IH]; intros n acc k Hn.
  - cbn [hex_digits]. lia.
  - rewrite hex_digits_S. destruct (n <? 16) eqn:Hb.
    + cbn [String.length]. lia.
    + apply Z.ltb_ge in Hb. destruct k as [| k].
      * change (16 ^ Z.of_nat 1) with 16 in Hn. lia.
      * assert (Hq : 0 <= n / 16 < 16 ^ Z.of_nat (S k)).
        { split; [apply Z.div_pos; lia |].
          apply Z.div_lt_upper_bound; [lia |].
          replace (Z.of_nat (S (S k))) with (Z.succ (Z.of_nat (S k))) in Hn
            by lia.
          rewrite Z.pow_succ_r in Hn by lia. lia. }
        specialize (IH (n / 16) (String (hex_char (n mod 16)) acc) k Hq).
        cbn [String.length] in IH. lia.
Qed.

End MoreHex.

(** X19.  [util_generic_to_string], later revision, with the address
    written in lowercase hexadecimal as [PRIxPTR] does on this platform:
    for every address other than 0 (the NULL pointer) up to [UINTPTR_MAX]
    and with memory available, the string returned is the full text
    ["0x..."], at most [MAX_POINTER_LEN] bytes; [util_generic_print]
    appends that same text and no space.  At address 0 nothing is
    allocated, the result is NULL and ["null "] is printed. *)
Theorem util_generic_to_string2_exact (a : Z) (out : string) (e : Z) (h : nat) :
  0 < a <= UINTPTR_MAX ->
  Utilities2.util_generic_to_string fmt_lx (Some a) (mkWorld e (S h))
  = (Some ("0x" ++ fmt_lx a), mkWorld e h) /\
  Z.of_nat (String.length ("0x" ++ fmt_lx a)) <= Utilities2.MAX_POINTER_LEN /\
  Utilities2.util_generic_print fmt_lx (mkFILE out false) (Some a)
  = (Z.of_nat (String.length ("0x" ++ fmt_lx a)),
     mkFILE (out ++ ("0x" ++ fmt_lx a)) false) /\
  Utilities2.util_generic_to_string fmt_lx (Some 0) (mkWorld e (S h))
  = (None, mkWorld e (S h)) /\
  Utilities2.util_generic_print fmt_lx (mkFILE out false) (Some 0)
  = (5, mkFILE (out ++ "null ") false).
Proof.
  unfold UINTPTR_MAX. intros Ha.
  assert (Hp : pointer (Some a) = Some a) by (destruct a; [lia | reflexivity | lia]).
  assert (Hlen : (String.length ("0x" ++ fmt_lx a) <= 18)%nat).
  { cbn [append String.length]. unfold fmt_lx.
    pose proof (hex_digits_length (S (Z.to_nat (Z.log2 a))) a "" 15) as H.
    cbn [String.length] in H.
    change (16 ^ Z.of_nat 16) with 18446744073709551616 in H.
    assert (String.length (hex_digits (S (Z.to_nat (Z.log2 a))) a "")
            <= 16)%nat by (apply H; lia).
    lia. }
  split; [| split; [| split; [| split]]].
  - unfold Utilities2.util_generic_to_string. rewrite Hp.
    unfold malloc, check, snprintf. cbn [heap errno].
    change (Z.to_nat (Utilities2.MAX_POINTER_LEN + 1 - 1)) with 18%nat.
    rewrite take_all; [reflexivity | exact Hlen].
  - change Utilities2.MAX_POINTER_LEN with 18. lia.
  - unfold Utilities2.util_generic_print. rewrite Hp. reflexivity.
  - reflexivity.
  - reflexivity.
Qed.

Lemma util_generic_to_string2_exact_witness :
  0 < 140737488355327 <= UINTPTR_MAX /\
  Utilities2.util_generic_to_string fmt_lx (Some 140737488355327) (mkWorld 0 1)
  = (Some "0x7fffffffffff", mkWorld 0 0).
Proof.
  assert (Ha : 0 < 140737488355327 <= UINTPTR_MAX) by (unfold UINTPTR_MAX; lia).
  split; [exact Ha |].
  exact (proj1 (util_generic_to_string2_exact 140737488355327 "" 0 0 Ha)).
Defined.



(** X21.  When the allocation fails, every to-string function, given a
    present handle (for the generic one: an address other than 0), returns
    NULL and leaves the allocator alone.  Those that go through
    [check_mem] also reset [errno] to 0, so that [errno] does not tell a
    failed allocation from a NULL handle; [util_string_to_string] of
    src/utilities.c returns the result of [strdup] directly and leaves
    [errno] at ENOMEM.  On a NULL handle, address 0 included, the generic
    functions return NULL before any allocation and leave [errno] as it
    was. *)
Theorem to_string_out_of_memory
    (fmt_p fmt_x : Z -> string) (fmt_g : nat -> spec_float -> string)
    (a n : Z) (c : ascii) (d : spec_float) (s : string) (e : Z) :
  a <> 0 ->
  let w := mkWorld e 0 in
  let failed := (@None string, mkWorld 0 0) in
  Utilities.util_generic_to_string fmt_p (Some a) w = failed /\
  Utilities.util_char_to_string (Some c) w = failed /\
  Utilities.util_int_to_string (Some n) w = failed /\
  Utilities.util_double_to_string fmt_g (Some d) w = failed /\
  Utilities.util_string_to_string (Some s) w = (None, mkWorld ENOMEM 0) /\
  Utilities2.util_generic_to_string fmt_x (Some a) w = failed /\
  Utilities2.util_char_to_string (Some c) w = failed /\
  Utilities2.util_int_to_string (Some n) w = failed /\
  Utilities2.util_double_to_string fmt_g (Some d) w = failed /\
  Utilities2.util_string_to_string (Some s) w = failed /\
  Utilities.util_generic_to_string fmt_p (Some 0) w = (None, w) /\
  Utilities2.util_generic_to_string fmt_x (Some 0) w = (None, w) /\
  Utilities.util_generic_to_string fmt_p None w = (None, w) /\
  Utilities2.util_generic_to_string fmt_x None w = (None, w).
Proof.
  intros Ha. cbv zeta.
  assert (Hp : pointer (Some a) = Some a)
    by (destruct a; [contradiction | reflexivity | reflexivity]).
  unfold Utilities.util_generic_to_string, Utilities2.util_generic_to_string.
  rewrite Hp. repeat split.
Qed.

Lemma to_string_out_of_memory_witness :
  4096 <> 0 /\
  Utilities.util_generic_to_string (fun _ => "0x1000") (Some 4096) (mkWorld 7 0)
  = (None, mkWorld 0 0) /\
  Utilities2.util_generic_to_string fmt_lx (Some 4096) (mkWorld 7 0)
  = (None, mkWorld 0 0).
Proof.
  assert (Ha : 4096 <> 0) by lia.
  split; [exact Ha |].
  destruct (to_string_out_of_memory (fun _ => "0x1000") fmt_lx (fun _ _ => "1")
              4096 0 "a"%char double_one "" 7 Ha)
    as (H1 & _ & _ & _ & _ & H6 & _).
  split; [exact H1 | exact H6].
Defined.

(** ** macros.h *)

Section MoreMacros.

Lemma RANGE_up (end_ start : Z) :
  start <= end_ -> end_ < INT_MAX ->
  forall (n : nat) (i : Z) (fuel : nat),
    INT_MIN <= i -> i + Z.of_nat n = end_ + 1 -> (n < fuel)%nat ->
    Macros.RANGE_from fuel i start end_ = Some (count_up i n).
Proof.
  intros Hse Hmax.
  assert (Hge : (end_ >=? start) = true) by (rewrite Z.geb_leb; now apply Z.leb_le).
  induction n as [| n IH]; intros i fuel Hi Hn Hf;
    (destruct fuel as [| fuel]; [lia |]); cbn [Macros.RANGE_from count_up];
    rewrite Hge.
  - assert (Hc : (i <=? end_) = false) by (apply Z.leb_gt; lia).
    now rewrite Hc.
  - assert (Hc : (i <=? end_) = true) by (apply Z.leb_le; lia).
    rewrite Hc.
    rewrite to_int_id by (unfold in_int, INT_MIN, INT_MAX in *; lia).
    rewrite IH by (unfold INT_MIN in *; lia). reflexivity.
Qed.

Lemma RANGE_down (end_ start : Z) :
  end_ < start -> INT_MIN < end_ ->
  forall (n : nat) (i : Z) (fuel : nat),
    i <= INT_MAX -> i - Z.of_nat n = end_ - 1 -> (n < fuel)%nat ->
    Macros.RANGE_from fuel i start end_ = Some (count_down i n).
Proof.
  intros Hse Hmin.
  assert (Hge : (end_ >=? start) = false)
    by (rewrite Z.geb_leb; apply Z.leb_gt; lia).
  induction n as [| n IH]; intros i fuel Hi Hn Hf;
    (destruct fuel as [| fuel]; [lia |]); cbn [Macros.RANGE_from count_down];
    rewrite Hge.
  - assert (Hc : (i >=? end_) = false)
      by (rewrite Z.geb_leb; apply Z.leb_gt; lia).
    now rewrite Hc.
  - assert (Hc : (i >=? end_) = true)
      by (rewrite Z.geb_leb; apply Z.leb_le; lia).
    rewrite Hc.
    rewrite to_int_id by (unfold in_int, INT_MIN, INT_MAX in *; lia).
    rewrite IH by (unfold INT_MAX in *; lia). reflexivity.
Qed.

End MoreMacros.

(** X22.  [RANGE(i, start, end)] with an [int] counter and [end] strictly
    between [INT_MIN] and [INT_MAX]: the loop ends, and its body runs for
    [start], then each next value towards [end], and last for [end]
    itself, that is for [|end - start| + 1] values. *)
Theorem RANGE_runs_through_end (start end_ : Z) (more : nat) :
  in_int start -> INT_MIN < end_ < INT_MAX ->
  Macros.RANGE (more + S (S (Z.to_nat (Z.abs (end_ - start))))) start end_
  = Some (if end_ >=? start
          then count_up start (S (Z.to_nat (end_ - start)))
          else count_down start (S (Z.to_nat (start - end_)))).
Proof.
  intros [Hs1 Hs2] [He1 He2]. unfold Macros.RANGE.
  destruct (Z.le_gt_cases start end_) as [Hle | Hgt].
  - assert (Hge : (end_ >=? start) = true)
      by (rewrite Z.geb_leb; now apply Z.leb_le).
    rewrite Hge. apply RANGE_up; try assumption; lia.
  - assert (Hge : (end_ >=? start) = false)
      by (rewrite Z.geb_leb; apply Z.leb_gt; lia).
    rewrite Hge. apply RANGE_down; try assumption; lia.
Qed.

Lemma RANGE_runs_through_end_witness :
  in_int 7 /\ INT_MIN < 3 < INT_MAX /\
  Macros.RANGE 6 7 3 = Some (7 :: 6 :: 5 :: 4 :: 3 :: nil).
Proof.
  assert (H1 : in_int 7) by (unfold in_int, INT_MIN, INT_MAX; lia).
  assert (H2 : INT_MIN < 3 < INT_MAX) by (unfold INT_MIN, INT_MAX; lia).
  split; [exact H1 |]. split; [exact H2 |].
  exact (RANGE_runs_through_end 7 3 0 H1 H2).
Defined.

(** X23.  [MIN], [MAX] and [COMPARE] on integers: [MIN] and [MAX] return
    the two operands in order, [COMPARE] of them is never positive and is 0
    only when the operands are equal, and swapping the operands of
    [COMPARE] negates it. *)
Theorem MIN_MAX_COMPARE (a b : Z) :
  (Macros.MIN a b = a /\ Macros.MAX a b = b \/
   Macros.MIN a b = b /\ Macros.MAX a b = a) /\
  Macros.MIN a b <= Macros.MAX a b /\
  Macros.COMPARE (Macros.MIN a b) (Macros.MAX a b) <= 0 /\
  (Macros.COMPARE (Macros.MIN a b) (Macros.MAX a b) = 0 <-> a = b) /\
  Macros.COMPARE b a = - Macros.COMPARE a b.
Proof.
  unfold Macros.MIN, Macros.MAX, Macros.COMPARE. rewrite !Z.gtb_ltb.
  destruct (Z.ltb_spec a b), (Z.ltb_spec b a); try lia;
    rewrite ?Z.gtb_ltb;
    repeat match goal with
           | |- context [?x <? ?y] => destruct (Z.ltb_spec x y); try lia
           end; cbn; lia.
Qed.

(** ** More on the integer parser *)

Section MoreStrtol.

Lemma strtol_value (str : string) (v : Z) (k : nat) :
  subject str = Some (v, k) ->
  st_val (strtol str) = Z.max LONG_MIN (Z.min LONG_MAX v) /\
  st_end (strtol str) = k /\
  st_erange (strtol str) = negb ((LONG_MIN <=? v) && (v <=? LONG_MAX)).
Proof.
  intros Hs. unfold strtol. rewrite Hs. unfold LONG_MIN, LONG_MAX.
  destruct (v >? 9223372036854775807) eqn:H1.
  { apply Z.gtb_lt in H1. cbn [st_val st_end st_erange].
    repeat split; [lia |].
    destruct (Z.leb_spec v 9223372036854775807); [lia |].
    now rewrite andb_false_r. }
  rewrite Z.gtb_ltb in H1. apply Z.ltb_ge in H1.
  destruct (v <? -9223372036854775808) eqn:H2.
  { apply Z.ltb_lt in H2. cbn [st_val st_end st_erange].
    repeat split; [lia |].
    destruct (Z.leb_spec (-9223372036854775808) v); [lia | reflexivity]. }
  apply Z.ltb_ge in H2. cbn [st_val st_end st_erange].
  repeat split; [lia |].
  destruct (Z.leb_spec (-9223372036854775808) v); [| lia].
  destruct (Z.leb_spec v 9223372036854775807); [reflexivity | lia].
Qed.

(** White space in front of a text is part of the subject sequence. *)
Lemma subject_space (c : ascii) (str : string) :
  isspace c = true ->
  subject (String c str) =
  match subject str with
  | Some (v, k) => Some (v, S k)
  | None => None
  end.
Proof.
  intros Hc. unfold subject. cbn [skip_space]. rewrite Hc.
  destruct (skip_space str) as [ws s1].
  destruct (sign_of s1) as [[neg sg] s2].
  destruct (digits_run s2 0 0) as [v [| nd]]; reflexivity.
Qed.

End MoreStrtol.

(** X24.  [util_int_from_string], both revisions: white space in front of
    the text is skipped; the result is the same as without it. *)
Theorem util_int_from_string_leading_space (c : ascii) (str : string) (w : world) :
  isspace c = true ->
  Utilities.util_int_from_string (String c str) w
  = Utilities.util_int_from_string str w /\
  Utilities2.util_int_from_string (String c str) w
  = Utilities2.util_int_from_string str w.
Proof.
  intros Hc. pose proof (subject_space c str Hc) as Hs.
  split.
  - unfold Utilities.util_int_from_string, malloc.
    destruct w as [e [| h]]; cbn [heap errno]; [reflexivity |].
    unfold check at 1 3.
    destruct (subject str) as [[v k] |] eqn:E.
    + destruct (strtol_value _ _ _ Hs) as (V1 & E1 & R1).
      destruct (strtol_value _ _ _ E) as (V2 & E2 & R2).
      apply subject_consumes in E. apply Nat.eqb_neq in E.
      rewrite V1, E1, R1, V2, E2, R2, E. reflexivity.
    + unfold strtol. rewrite Hs, E. reflexivity.
  - rewrite !util_int_from_string2_full, Hs.
    destruct (subject str) as [[v k] |]; reflexivity.
Qed.

Lemma util_int_from_string_leading_space_witness :
  isspace " " = true /\
  Utilities2.util_int_from_string " 42" (mkWorld 0 1)
  = Utilities2.util_int_from_string "42" (mkWorld 0 1).
Proof.
  split; [reflexivity |].
  apply (util_int_from_string_leading_space " " "42" (mkWorld 0 1)).
  reflexivity.
Defined.

(** X25.  [util_int_from_string] of src/utilities.c, with memory
    available, depends on the text only through the value of its leading
    run: without digits the result is NULL; a value other than [INT_MAX]
    is never turned down, the result points to it cut to the range of
    [long] and then wrapped to 32 bits; and [INT_MAX] is accepted only
    when [errno] was not 0 on entry. *)
Theorem util_int_from_string1_contract (str : string) (e : Z) (h : nat) :
  fst (Utilities.util_int_from_string str (mkWorld e (S h))) =
  match subject str with
  | None => None
  | Some (v, _) =>
      if v =? INT_MAX
      then if e =? 0 then None else Some INT_MAX
      else Some (to_int (Z.max LONG_MIN (Z.min LONG_MAX v)))
  end.
Proof.
  destruct (subject str) as [[v k] |] eqn:Hs.
  - rewrite (util_int_from_string1_result _ _ _ _ _ Hs).
    destruct (strtol_value _ _ _ Hs) as (V & _ & R). rewrite V, R.
    unfold LONG_MIN, LONG_MAX, INT_MAX.
    destruct (Z.eqb_spec v 2147483647) as [-> | Hne].
    + cbn. destruct (e =? 0); reflexivity.
    + assert (Hc : (Z.max (-9223372036854775808)
                      (Z.min 9223372036854775807 v) =? 2147483647) = false)
        by (apply Z.eqb_neq; lia).
      rewrite Hc. reflexivity.
  - unfold Utilities.util_int_from_string, malloc. cbn [heap errno].
    unfold check at 1. unfold strtol. rewrite Hs. reflexivity.
Qed.
